(** * Voice recorder page (script.js): recording session controller and
      recording list

    A shallow embedding of [script.js].  The script is a set of event
    handlers over a handful of global variables, the page's DOM and three
    browser facilities (MediaRecorder, blob URLs, interval timers).  Every
    handler runs to completion before the next one starts, so a handler is
    a function on one [State] record holding the script variables, the DOM
    fields the script writes, and the part of the browser the script talks
    to.  What the browser or the user decides (the data of a fragment, the
    answer to a dialog, the locale's date and time text) is carried by the
    event. *)

From Stdlib Require Import ZArith String Ascii DecimalString DecimalZ Bool Lia.
From Stdlib.Strings Require Import Byte.
From stdpp Require Import base option list.

Open Scope Z_scope.

(** ** JavaScript strings

    A JavaScript string is a sequence of UTF-16 code units; [padStart],
    [replace] with a regular expression without the [u] flag and [trim] all
    work on code units. *)

Definition jsstring := list N.

(** A string literal of the script (all of them are ASCII). *)
Fixpoint lit (s : string) : jsstring :=
  match s with
  | EmptyString => []
  | String c r => N_of_ascii c :: lit r
  end.

(** [String(n)] for an integer-valued number [n] (decimal, a leading [-]
    for negatives).  The script's numbers are doubles: this is what
    [String] prints for an integer of magnitude below 2^53, the range in
    which a double is an exact integer (from 1e21 on [String] switches to
    exponent notation).  The numbers the script prints are differences of
    millisecond clock readings, far inside that range. *)
Definition String_of (n : Z) : jsstring :=
  lit (NilZero.string_of_int (Z.to_int n)).

(** [s.padStart(n, c)] with a one-character filler. *)
Definition padStart (n : nat) (c : N) (s : jsstring) : jsstring :=
  repeat c (n - length s)%nat ++ s.

Definition zero_digit : N := 48.
Definition underscore : N := 95.

(** [Math.floor(a / b)] for an integer [a] of magnitude below 2^53 and
    [b] one of 1000, 3600, 60 is [a / b] on [Z]: the double quotient is
    correctly rounded and lies further from the next integer than half the
    spacing of the doubles there, so flooring it gives the exact integer
    quotient.  Beyond 2^53 the script's doubles round and the two differ.
    JavaScript's [%] takes the sign of the dividend, which is [Z.rem]. *)

(** The body of the interval callback of [startTimer], after
    [timeElapsed] has been refreshed: the text written to the timer, for
    an integer [timeElapsed] of magnitude below 2^53. *)
Definition timerDisplay (timeElapsed : Z) : jsstring :=
  let totalSeconds := timeElapsed / 1000 in
  let hours := padStart 2 zero_digit (String_of (totalSeconds / 3600)) in
  let minutes :=
    padStart 2 zero_digit (String_of (Z.rem totalSeconds 3600 / 60)) in
  let seconds := padStart 2 zero_digit (String_of (Z.rem totalSeconds 60)) in
  hours ++ lit ":" ++ minutes ++ lit ":" ++ seconds.

(** The first four lines of [addAudioToDisplay]: the default name, for an
    integer [durationMs] of magnitude below 2^53.  The two [new Date()]
    renderings depend on the locale and the wall clock and are taken as
    given. *)
Definition defaultName (date time : jsstring) (durationMs : Z) : jsstring :=
  let totalSeconds := durationMs / 1000 in
  let minutes := padStart 2 zero_digit (String_of (totalSeconds / 60)) in
  let seconds := padStart 2 zero_digit (String_of (Z.rem totalSeconds 60)) in
  lit "Recording " ++ date ++ lit " " ++ time ++ lit " (" ++ minutes
    ++ lit ":" ++ seconds ++ lit ")".

(** The class [[a-z0-9]] under the [i] flag and without the [u] flag.  Case
    folding there maps a code unit to its upper case, except that a code
    unit from 128 up is never folded onto an ASCII one, so the class holds
    exactly the ASCII letters and digits. *)
Definition isAlnum (u : N) : bool :=
  ((48 <=? u) && (u <=? 57) || (65 <=? u) && (u <=? 90)
   || (97 <=? u) && (u <=? 122))%N.

(** [filename.replace(/[^a-z0-9]/gi, '_')]: every match is one code unit. *)
Definition sanitize (filename : jsstring) : jsstring :=
  map (fun u => if isAlnum u then u else underscore) filename.

(** The value given to [a.download] in [downloadRecording]. *)
Definition downloadName (filename : jsstring) : jsstring :=
  sanitize filename ++ lit ".webm".

(** JavaScript's white space and line terminators, as [trim] sees them. *)
Definition isWhiteSpace (u : N) : bool :=
  ((9 <=? u) && (u <=? 13) || (u =? 32) || (u =? 160) || (u =? 5760)
   || (8192 <=? u) && (u <=? 8202) || (u =? 8232) || (u =? 8233)
   || (u =? 8239) || (u =? 8287) || (u =? 12288) || (u =? 65279))%N.

Fixpoint trimStart (s : jsstring) : jsstring :=
  match s with
  | [] => []
  | u :: r => if isWhiteSpace u then trimStart r else s
  end.

Definition trim (s : jsstring) : jsstring :=
  rev (trimStart (rev (trimStart s))).

(** ** The browser as the script sees it *)

(** A fragment of recorded audio and a finished payload are byte
    sequences; [new Blob(parts)] concatenates its parts. *)
Definition Blob := list byte.

Definition newBlob (parts : list Blob) : Blob := concat parts.

(** [MediaRecorder.state]. *)
Inductive RecorderState := inactive | recording | paused.

Global Instance RecorderState_eq_dec : EqDecision RecorderState.
Proof. solve_decision. Defined.

(** Browser operations whose invocation the properties below talk about.
    Recorders, streams and blob URLs are named by the order of their
    creation. *)
Inductive Call :=
| CRecorderStart (r : nat)
| CRecorderPause (r : nat)
| CRecorderResume (r : nat)
| CRecorderStop (r : nat)
| CTrackStop (sid : nat)
| CCreateObjectURL (url : nat)
| CRevokeObjectURL (url : nat)
| CAnchorClick (href : nat) (download : jsstring).

Global Instance Call_eq_dec : EqDecision Call.
Proof. solve_decision. Defined.

Inductive Exn := InvalidStateError | TypeError.

(** One [div.recording-item]: [dataset.url] (also the [src] of its audio
    player and the URL its download button closes over) and the text of
    its name span.  The duration is not kept anywhere but in the default
    name. *)
Record Item := { item_url : nat; item_name : jsstring }.

(** ** State: script variables, DOM, browser *)

Record State := {
  mediaRecorder : option nat;  (* the recorder object held by [mediaRecorder], [None] for undefined *)
  audioChunks : list Blob;
  stream : option nat;
  isRecording : bool;
  isPaused : bool;
  timerInterval : option nat;
  startTime : Z;
  timeElapsed : Z;
  (* DOM *)
  statusMessage : string;  (* [statusMessage.textContent] *)
  timerText : jsstring;  (* [timerElement.textContent] *)
  timerActive : bool;  (* class [active] on the timer *)
  recordDisabled : bool;  (* [recordButton.disabled] *)
  recordRecording : bool;  (* class [recording] on the record button *)
  controlsHidden : bool;  (* class [hidden] on the active controls *)
  pauseResuming : bool;  (* play icon and class [resuming] on the pause button *)
  audioList : list Item;  (* children of [audioList], first child first *)
  (* browser *)
  clock : Z;  (* [Date.now()] *)
  recorders : list RecorderState;  (* [state] of every MediaRecorder created so far *)
  streams : list bool;  (* per stream obtained so far: are its tracks live *)
  intervals : list nat;  (* interval timers that are set *)
  nextInterval : nat;  (* the id the next [setInterval] returns *)
  blobUrls : list (option Blob);  (* blob URL store: [Some None] is a revoked URL *)
  pendingAccess : nat;  (* [getUserMedia] promises not yet settled *)
  pendingStop : list nat;  (* recorders whose [stop] event is queued *)
  calls : list Call;  (* browser operations invoked so far, oldest first *)
  uncaught : list Exn  (* exceptions that escaped a handler *)
}.

(** Field updates (Rocq has no record update syntax). *)

Definition set_mediaRecorder (v : option nat) (s : State) : State :=
  {| mediaRecorder := v; audioChunks := audioChunks s; stream := stream s;
     isRecording := isRecording s; isPaused := isPaused s; timerInterval :=
     timerInterval s; startTime := startTime s; timeElapsed := timeElapsed
     s; statusMessage := statusMessage s; timerText := timerText s;
     timerActive := timerActive s; recordDisabled := recordDisabled s;
     recordRecording := recordRecording s; controlsHidden := controlsHidden
     s; pauseResuming := pauseResuming s; audioList := audioList s; clock :=
     clock s; recorders := recorders s; streams := streams s; intervals :=
     intervals s; nextInterval := nextInterval s; blobUrls := blobUrls s;
     pendingAccess := pendingAccess s; pendingStop := pendingStop s; calls
     := calls s; uncaught := uncaught s |}.

Definition set_audioChunks (v : list Blob) (s : State) : State :=
  {| mediaRecorder := mediaRecorder s; audioChunks := v; stream := stream s;
     isRecording := isRecording s; isPaused := isPaused s; timerInterval :=
     timerInterval s; startTime := startTime s; timeElapsed := timeElapsed
     s; statusMessage := statusMessage s; timerText := timerText s;
     timerActive := timerActive s; recordDisabled := recordDisabled s;
     recordRecording := recordRecording s; controlsHidden := controlsHidden
     s; pauseResuming := pauseResuming s; audioList := audioList s; clock :=
     clock s; recorders := recorders s; streams := streams s; intervals :=
     intervals s; nextInterval := nextInterval s; blobUrls := blobUrls s;
     pendingAccess := pendingAccess s; pendingStop := pendingStop s; calls
     := calls s; uncaught := uncaught s |}.

Definition set_stream (v : option nat) (s : State) : State :=
  {| mediaRecorder := mediaRecorder s; audioChunks := audioChunks s; stream
     := v; isRecording := isRecording s; isPaused := isPaused s;
     timerInterval := timerInterval s; startTime := startTime s; timeElapsed
     := timeElapsed s; statusMessage := statusMessage s; timerText :=
     timerText s; timerActive := timerActive s; recordDisabled :=
     recordDisabled s; recordRecording := recordRecording s; controlsHidden
     := controlsHidden s; pauseResuming := pauseResuming s; audioList :=
     audioList s; clock := clock s; recorders := recorders s; streams :=
     streams s; intervals := intervals s; nextInterval := nextInterval s;
     blobUrls := blobUrls s; pendingAccess := pendingAccess s; pendingStop
     := pendingStop s; calls := calls s; uncaught := uncaught s |}.

Definition set_isRecording (v : bool) (s : State) : State :=
  {| mediaRecorder := mediaRecorder s; audioChunks := audioChunks s; stream
     := stream s; isRecording := v; isPaused := isPaused s; timerInterval :=
     timerInterval s; startTime := startTime s; timeElapsed := timeElapsed
     s; statusMessage := statusMessage s; timerText := timerText s;
     timerActive := timerActive s; recordDisabled := recordDisabled s;
     recordRecording := recordRecording s; controlsHidden := controlsHidden
     s; pauseResuming := pauseResuming s; audioList := audioList s; clock :=
     clock s; recorders := recorders s; streams := streams s; intervals :=
     intervals s; nextInterval := nextInterval s; blobUrls := blobUrls s;
     pendingAccess := pendingAccess s; pendingStop := pendingStop s; calls
     := calls s; uncaught := uncaught s |}.

Definition set_isPaused (v : bool) (s : State) : State :=
  {| mediaRecorder := mediaRecorder s; audioChunks := audioChunks s; stream
     := stream s; isRecording := isRecording s; isPaused := v; timerInterval
     := timerInterval s; startTime := startTime s; timeElapsed :=
     timeElapsed s; statusMessage := statusMessage s; timerText := timerText
     s; timerActive := timerActive s; recordDisabled := recordDisabled s;
     recordRecording := recordRecording s; controlsHidden := controlsHidden
     s; pauseResuming := pauseResuming s; audioList := audioList s; clock :=
     clock s; recorders := recorders s; streams := streams s; intervals :=
     intervals s; nextInterval := nextInterval s; blobUrls := blobUrls s;
     pendingAccess := pendingAccess s; pendingStop := pendingStop s; calls
     := calls s; uncaught := uncaught s |}.

Definition set_timerInterval (v : option nat) (s : State) : State :=
  {| mediaRecorder := mediaRecorder s; audioChunks := audioChunks s; stream
     := stream s; isRecording := isRecording s; isPaused := isPaused s;
     timerInterval := v; startTime := startTime s; timeElapsed :=
     timeElapsed s; statusMessage := statusMessage s; timerText := timerText
     s; timerActive := timerActive s; recordDisabled := recordDisabled s;
     recordRecording := recordRecording s; controlsHidden := controlsHidden
     s; pauseResuming := pauseResuming s; audioList := audioList s; clock :=
     clock s; recorders := recorders s; streams := streams s; intervals :=
     intervals s; nextInterval := nextInterval s; blobUrls := blobUrls s;
     pendingAccess := pendingAccess s; pendingStop := pendingStop s; calls
     := calls s; uncaught := uncaught s |}.

Definition set_startTime (v : Z) (s : State) : State :=
  {| mediaRecorder := mediaRecorder s; audioChunks := audioChunks s; stream
     := stream s; isRecording := isRecording s; isPaused := isPaused s;
     timerInterval := timerInterval s; startTime := v; timeElapsed :=
     timeElapsed s; statusMessage := statusMessage s; timerText := timerText
     s; timerActive := timerActive s; recordDisabled := recordDisabled s;
     recordRecording := recordRecording s; controlsHidden := controlsHidden
     s; pauseResuming := pauseResuming s; audioList := audioList s; clock :=
     clock s; recorders := recorders s; streams := streams s; intervals :=
     intervals s; nextInterval := nextInterval s; blobUrls := blobUrls s;
     pendingAccess := pendingAccess s; pendingStop := pendingStop s; calls
     := calls s; uncaught := uncaught s |}.

Definition set_timeElapsed (v : Z) (s : State) : State :=
  {| mediaRecorder := mediaRecorder s; audioChunks := audioChunks s; stream
     := stream s; isRecording := isRecording s; isPaused := isPaused s;
     timerInterval := timerInterval s; startTime := startTime s; timeElapsed
     := v; statusMessage := statusMessage s; timerText := timerText s;
     timerActive := timerActive s; recordDisabled := recordDisabled s;
     recordRecording := recordRecording s; controlsHidden := controlsHidden
     s; pauseResuming := pauseResuming s; audioList := audioList s; clock :=
     clock s; recorders := recorders s; streams := streams s; intervals :=
     intervals s; nextInterval := nextInterval s; blobUrls := blobUrls s;
     pendingAccess := pendingAccess s; pendingStop := pendingStop s; calls
     := calls s; uncaught := uncaught s |}.

Definition set_statusMessage (v : string) (s : State) : State :=
  {| mediaRecorder := mediaRecorder s; audioChunks := audioChunks s; stream
     := stream s; isRecording := isRecording s; isPaused := isPaused s;
     timerInterval := timerInterval s; startTime := startTime s; timeElapsed
     := timeElapsed s; statusMessage := v; timerText := timerText s;
     timerActive := timerActive s; recordDisabled := recordDisabled s;
     recordRecording := recordRecording s; controlsHidden := controlsHidden
     s; pauseResuming := pauseResuming s; audioList := audioList s; clock :=
     clock s; recorders := recorders s; streams := streams s; intervals :=
     intervals s; nextInterval := nextInterval s; blobUrls := blobUrls s;
     pendingAccess := pendingAccess s; pendingStop := pendingStop s; calls
     := calls s; uncaught := uncaught s |}.

Definition set_timerText (v : jsstring) (s : State) : State :=
  {| mediaRecorder := mediaRecorder s; audioChunks := audioChunks s; stream
     := stream s; isRecording := isRecording s; isPaused := isPaused s;
     timerInterval := timerInterval s; startTime := startTime s; timeElapsed
     := timeElapsed s; statusMessage := statusMessage s; timerText := v;
     timerActive := timerActive s; recordDisabled := recordDisabled s;
     recordRecording := recordRecording s; controlsHidden := controlsHidden
     s; pauseResuming := pauseResuming s; audioList := audioList s; clock :=
     clock s; recorders := recorders s; streams := streams s; intervals :=
     intervals s; nextInterval := nextInterval s; blobUrls := blobUrls s;
     pendingAccess := pendingAccess s; pendingStop := pendingStop s; calls
     := calls s; uncaught := uncaught s |}.

Definition set_timerActive (v : bool) (s : State) : State :=
  {| mediaRecorder := mediaRecorder s; audioChunks := audioChunks s; stream
     := stream s; isRecording := isRecording s; isPaused := isPaused s;
     timerInterval := timerInterval s; startTime := startTime s; timeElapsed
     := timeElapsed s; statusMessage := statusMessage s; timerText :=
     timerText s; timerActive := v; recordDisabled := recordDisabled s;
     recordRecording := recordRecording s; controlsHidden := controlsHidden
     s; pauseResuming := pauseResuming s; audioList := audioList s; clock :=
     clock s; recorders := recorders s; streams := streams s; intervals :=
     intervals s; nextInterval := nextInterval s; blobUrls := blobUrls s;
     pendingAccess := pendingAccess s; pendingStop := pendingStop s; calls
     := calls s; uncaught := uncaught s |}.

Definition set_recordDisabled (v : bool) (s : State) : State :=
  {| mediaRecorder := mediaRecorder s; audioChunks := audioChunks s; stream
     := stream s; isRecording := isRecording s; isPaused := isPaused s;
     timerInterval := timerInterval s; startTime := startTime s; timeElapsed
     := timeElapsed s; statusMessage := statusMessage s; timerText :=
     timerText s; timerActive := timerActive s; recordDisabled := v;
     recordRecording := recordRecording s; controlsHidden := controlsHidden
     s; pauseResuming := pauseResuming s; audioList := audioList s; clock :=
     clock s; recorders := recorders s; streams := streams s; intervals :=
     intervals s; nextInterval := nextInterval s; blobUrls := blobUrls s;
     pendingAccess := pendingAccess s; pendingStop := pendingStop s; calls
     := calls s; uncaught := uncaught s |}.

Definition set_recordRecording (v : bool) (s : State) : State :=
  {| mediaRecorder := mediaRecorder s; audioChunks := audioChunks s; stream
     := stream s; isRecording := isRecording s; isPaused := isPaused s;
     timerInterval := timerInterval s; startTime := startTime s; timeElapsed
     := timeElapsed s; statusMessage := statusMessage s; timerText :=
     timerText s; timerActive := timerActive s; recordDisabled :=
     recordDisabled s; recordRecording := v; controlsHidden :=
     controlsHidden s; pauseResuming := pauseResuming s; audioList :=
     audioList s; clock := clock s; recorders := recorders s; streams :=
     streams s; intervals := intervals s; nextInterval := nextInterval s;
     blobUrls := blobUrls s; pendingAccess := pendingAccess s; pendingStop
     := pendingStop s; calls := calls s; uncaught := uncaught s |}.

Definition set_controlsHidden (v : bool) (s : State) : State :=
  {| mediaRecorder := mediaRecorder s; audioChunks := audioChunks s; stream
     := stream s; isRecording := isRecording s; isPaused := isPaused s;
     timerInterval := timerInterval s; startTime := startTime s; timeElapsed
     := timeElapsed s; statusMessage := statusMessage s; timerText :=
     timerText s; timerActive := timerActive s; recordDisabled :=
     recordDisabled s; recordRecording := recordRecording s; controlsHidden
     := v; pauseResuming := pauseResuming s; audioList := audioList s; clock
     := clock s; recorders := recorders s; streams := streams s; intervals
     := intervals s; nextInterval := nextInterval s; blobUrls := blobUrls s;
     pendingAccess := pendingAccess s; pendingStop := pendingStop s; calls
     := calls s; uncaught := uncaught s |}.

Definition set_pauseResuming (v : bool) (s : State) : State :=
  {| mediaRecorder := mediaRecorder s; audioChunks := audioChunks s; stream
     := stream s; isRecording := isRecording s; isPaused := isPaused s;
     timerInterval := timerInterval s; startTime := startTime s; timeElapsed
     := timeElapsed s; statusMessage := statusMessage s; timerText :=
     timerText s; timerActive := timerActive s; recordDisabled :=
     recordDisabled s; recordRecording := recordRecording s; controlsHidden
     := controlsHidden s; pauseResuming := v; audioList := audioList s;
     clock := clock s; recorders := recorders s; streams := streams s;
     intervals := intervals s; nextInterval := nextInterval s; blobUrls :=
     blobUrls s; pendingAccess := pendingAccess s; pendingStop :=
     pendingStop s; calls := calls s; uncaught := uncaught s |}.

Definition set_audioList (v : list Item) (s : State) : State :=
  {| mediaRecorder := mediaRecorder s; audioChunks := audioChunks s; stream
     := stream s; isRecording := isRecording s; isPaused := isPaused s;
     timerInterval := timerInterval s; startTime := startTime s; timeElapsed
     := timeElapsed s; statusMessage := statusMessage s; timerText :=
     timerText s; timerActive := timerActive s; recordDisabled :=
     recordDisabled s; recordRecording := recordRecording s; controlsHidden
     := controlsHidden s; pauseResuming := pauseResuming s; audioList := v;
     clock := clock s; recorders := recorders s; streams := streams s;
     intervals := intervals s; nextInterval := nextInterval s; blobUrls :=
     blobUrls s; pendingAccess := pendingAccess s; pendingStop :=
     pendingStop s; calls := calls s; uncaught := uncaught s |}.

Definition set_clock (v : Z) (s : State) : State :=
  {| mediaRecorder := mediaRecorder s; audioChunks := audioChunks s; stream
     := stream s; isRecording := isRecording s; isPaused := isPaused s;
     timerInterval := timerInterval s; startTime := startTime s; timeElapsed
     := timeElapsed s; statusMessage := statusMessage s; timerText :=
     timerText s; timerActive := timerActive s; recordDisabled :=
     recordDisabled s; recordRecording := recordRecording s; controlsHidden
     := controlsHidden s; pauseResuming := pauseResuming s; audioList :=
     audioList s; clock := v; recorders := recorders s; streams := streams
     s; intervals := intervals s; nextInterval := nextInterval s; blobUrls
     := blobUrls s; pendingAccess := pendingAccess s; pendingStop :=
     pendingStop s; calls := calls s; uncaught := uncaught s |}.

Definition set_recorders (v : list RecorderState) (s : State) : State :=
  {| mediaRecorder := mediaRecorder s; audioChunks := audioChunks s; stream
     := stream s; isRecording := isRecording s; isPaused := isPaused s;
     timerInterval := timerInterval s; startTime := startTime s; timeElapsed
     := timeElapsed s; statusMessage := statusMessage s; timerText :=
     timerText s; timerActive := timerActive s; recordDisabled :=
     recordDisabled s; recordRecording := recordRecording s; controlsHidden
     := controlsHidden s; pauseResuming := pauseResuming s; audioList :=
     audioList s; clock := clock s; recorders := v; streams := streams s;
     intervals := intervals s; nextInterval := nextInterval s; blobUrls :=
     blobUrls s; pendingAccess := pendingAccess s; pendingStop :=
     pendingStop s; calls := calls s; uncaught := uncaught s |}.

Definition set_streams (v : list bool) (s : State) : State :=
  {| mediaRecorder := mediaRecorder s; audioChunks := audioChunks s; stream
     := stream s; isRecording := isRecording s; isPaused := isPaused s;
     timerInterval := timerInterval s; startTime := startTime s; timeElapsed
     := timeElapsed s; statusMessage := statusMessage s; timerText :=
     timerText s; timerActive := timerActive s; recordDisabled :=
     recordDisabled s; recordRecording := recordRecording s; controlsHidden
     := controlsHidden s; pauseResuming := pauseResuming s; audioList :=
     audioList s; clock := clock s; recorders := recorders s; streams := v;
     intervals := intervals s; nextInterval := nextInterval s; blobUrls :=
     blobUrls s; pendingAccess := pendingAccess s; pendingStop :=
     pendingStop s; calls := calls s; uncaught := uncaught s |}.

Definition set_intervals (v : list nat) (s : State) : State :=
  {| mediaRecorder := mediaRecorder s; audioChunks := audioChunks s; stream
     := stream s; isRecording := isRecording s; isPaused := isPaused s;
     timerInterval := timerInterval s; startTime := startTime s; timeElapsed
     := timeElapsed s; statusMessage := statusMessage s; timerText :=
     timerText s; timerActive := timerActive s; recordDisabled :=
     recordDisabled s; recordRecording := recordRecording s; controlsHidden
     := controlsHidden s; pauseResuming := pauseResuming s; audioList :=
     audioList s; clock := clock s; recorders := recorders s; streams :=
     streams s; intervals := v; nextInterval := nextInterval s; blobUrls :=
     blobUrls s; pendingAccess := pendingAccess s; pendingStop :=
     pendingStop s; calls := calls s; uncaught := uncaught s |}.

Definition set_nextInterval (v : nat) (s : State) : State :=
  {| mediaRecorder := mediaRecorder s; audioChunks := audioChunks s; stream
     := stream s; isRecording := isRecording s; isPaused := isPaused s;
     timerInterval := timerInterval s; startTime := startTime s; timeElapsed
     := timeElapsed s; statusMessage := statusMessage s; timerText :=
     timerText s; timerActive := timerActive s; recordDisabled :=
     recordDisabled s; recordRecording := recordRecording s; controlsHidden
     := controlsHidden s; pauseResuming := pauseResuming s; audioList :=
     audioList s; clock := clock s; recorders := recorders s; streams :=
     streams s; intervals := intervals s; nextInterval := v; blobUrls :=
     blobUrls s; pendingAccess := pendingAccess s; pendingStop :=
     pendingStop s; calls := calls s; uncaught := uncaught s |}.

Definition set_blobUrls (v : list (option Blob)) (s : State) : State :=
  {| mediaRecorder := mediaRecorder s; audioChunks := audioChunks s; stream
     := stream s; isRecording := isRecording s; isPaused := isPaused s;
     timerInterval := timerInterval s; startTime := startTime s; timeElapsed
     := timeElapsed s; statusMessage := statusMessage s; timerText :=
     timerText s; timerActive := timerActive s; recordDisabled :=
     recordDisabled s; recordRecording := recordRecording s; controlsHidden
     := controlsHidden s; pauseResuming := pauseResuming s; audioList :=
     audioList s; clock := clock s; recorders := recorders s; streams :=
     streams s; intervals := intervals s; nextInterval := nextInterval s;
     blobUrls := v; pendingAccess := pendingAccess s; pendingStop :=
     pendingStop s; calls := calls s; uncaught := uncaught s |}.

Definition set_pendingAccess (v : nat) (s : State) : State :=
  {| mediaRecorder := mediaRecorder s; audioChunks := audioChunks s; stream
     := stream s; isRecording := isRecording s; isPaused := isPaused s;
     timerInterval := timerInterval s; startTime := startTime s; timeElapsed
     := timeElapsed s; statusMessage := statusMessage s; timerText :=
     timerText s; timerActive := timerActive s; recordDisabled :=
     recordDisabled s; recordRecording := recordRecording s; controlsHidden
     := controlsHidden s; pauseResuming := pauseResuming s; audioList :=
     audioList s; clock := clock s; recorders := recorders s; streams :=
     streams s; intervals := intervals s; nextInterval := nextInterval s;
     blobUrls := blobUrls s; pendingAccess := v; pendingStop := pendingStop
     s; calls := calls s; uncaught := uncaught s |}.

Definition set_pendingStop (v : list nat) (s : State) : State :=
  {| mediaRecorder := mediaRecorder s; audioChunks := audioChunks s; stream
     := stream s; isRecording := isRecording s; isPaused := isPaused s;
     timerInterval := timerInterval s; startTime := startTime s; timeElapsed
     := timeElapsed s; statusMessage := statusMessage s; timerText :=
     timerText s; timerActive := timerActive s; recordDisabled :=
     recordDisabled s; recordRecording := recordRecording s; controlsHidden
     := controlsHidden s; pauseResuming := pauseResuming s; audioList :=
     audioList s; clock := clock s; recorders := recorders s; streams :=
     streams s; intervals := intervals s; nextInterval := nextInterval s;
     blobUrls := blobUrls s; pendingAccess := pendingAccess s; pendingStop
     := v; calls := calls s; uncaught := uncaught s |}.

Definition set_calls (v : list Call) (s : State) : State :=
  {| mediaRecorder := mediaRecorder s; audioChunks := audioChunks s; stream
     := stream s; isRecording := isRecording s; isPaused := isPaused s;
     timerInterval := timerInterval s; startTime := startTime s; timeElapsed
     := timeElapsed s; statusMessage := statusMessage s; timerText :=
     timerText s; timerActive := timerActive s; recordDisabled :=
     recordDisabled s; recordRecording := recordRecording s; controlsHidden
     := controlsHidden s; pauseResuming := pauseResuming s; audioList :=
     audioList s; clock := clock s; recorders := recorders s; streams :=
     streams s; intervals := intervals s; nextInterval := nextInterval s;
     blobUrls := blobUrls s; pendingAccess := pendingAccess s; pendingStop
     := pendingStop s; calls := v; uncaught := uncaught s |}.

Definition set_uncaught (v : list Exn) (s : State) : State :=
  {| mediaRecorder := mediaRecorder s; audioChunks := audioChunks s; stream
     := stream s; isRecording := isRecording s; isPaused := isPaused s;
     timerInterval := timerInterval s; startTime := startTime s; timeElapsed
     := timeElapsed s; statusMessage := statusMessage s; timerText :=
     timerText s; timerActive := timerActive s; recordDisabled :=
     recordDisabled s; recordRecording := recordRecording s; controlsHidden
     := controlsHidden s; pauseResuming := pauseResuming s; audioList :=
     audioList s; clock := clock s; recorders := recorders s; streams :=
     streams s; intervals := intervals s; nextInterval := nextInterval s;
     blobUrls := blobUrls s; pendingAccess := pendingAccess s; pendingStop
     := pendingStop s; calls := calls s; uncaught := v |}.

(** ** Browser operations *)

Definition log (c : Call) (s : State) : State :=
  set_calls (calls s ++ [c]) s.

(** An operation of the browser either returns or throws. *)
Inductive Completion :=
| Normal (s : State)
| Throw (e : Exn) (s : State).

Definition recorderState (r : nat) (s : State) : RecorderState :=
  default inactive (recorders s !! r).

Definition set_recorderState (r : nat) (st : RecorderState) (s : State)
  : State :=
  set_recorders (<[r := st]> (recorders s)) s.

(** [MediaRecorder.start()]: throws unless the recorder is inactive. *)
Definition recorder_start (r : nat) (s : State) : Completion :=
  let s := log (CRecorderStart r) s in
  match recorderState r s with
  | inactive => Normal (set_recorderState r recording s)
  | _ => Throw InvalidStateError s
  end.

(** [MediaRecorder.pause()]: throws on an inactive recorder, does nothing
    on a paused one. *)
Definition recorder_pause (r : nat) (s : State) : Completion :=
  let s := log (CRecorderPause r) s in
  match recorderState r s with
  | inactive => Throw InvalidStateError s
  | paused => Normal s
  | recording => Normal (set_recorderState r paused s)
  end.

(** [MediaRecorder.resume()]: throws on an inactive recorder, does nothing
    on a recording one. *)
Definition recorder_resume (r : nat) (s : State) : Completion :=
  let s := log (CRecorderResume r) s in
  match recorderState r s with
  | inactive => Throw InvalidStateError s
  | recording => Normal s
  | paused => Normal (set_recorderState r recording s)
  end.

(** [MediaRecorder.stop()]: the recorder becomes inactive at once; the last
    [dataavailable] and the [stop] event are fired from a task queued for
    later, after the calling handler has returned. *)
Definition recorder_stop (r : nat) (s : State) : State :=
  let s := log (CRecorderStop r) s in
  match recorderState r s with
  | inactive => s
  | _ => set_pendingStop (pendingStop s ++ [r]) (set_recorderState r inactive s)
  end.

(** [URL.createObjectURL(blob)]: the URL made is [length (blobUrls s)]. *)
Definition createObjectURL (b : Blob) (s : State) : State :=
  log (CCreateObjectURL (length (blobUrls s)))
      (set_blobUrls (blobUrls s ++ [Some b]) s).

(** [URL.revokeObjectURL(url)]; revoking twice, or an unknown URL, is
    allowed and changes nothing more. *)
Definition revokeObjectURL (url : nat) (s : State) : State :=
  log (CRevokeObjectURL url) (set_blobUrls (<[url := None]> (blobUrls s)) s).

(** What a URL resolves to: nothing once revoked. *)
Definition resolveURL (url : nat) (s : State) : option Blob :=
  mjoin (blobUrls s !! url).

(** [stream.getTracks().forEach(track => track.stop())]. *)
Definition stopTracks (sid : nat) (s : State) : State :=
  log (CTrackStop sid) (set_streams (<[sid := false]> (streams s)) s).

Definition setInterval (s : State) : State :=
  set_nextInterval (S (nextInterval s))
    (set_intervals (intervals s ++ [nextInterval s]) s).

Definition clearInterval (id : option nat) (s : State) : State :=
  match id with
  | Some i => set_intervals (filter (fun j => j ≠ i) (intervals s)) s
  | None => s
  end.

(** ** The script's functions *)

Definition startTimer (s : State) : State :=
  let s := set_startTime (clock s - timeElapsed s) s in
  let s := set_timerActive true s in
  let id := nextInterval s in
  set_timerInterval (Some id) (setInterval s).

(** The callback given to [setInterval] in [startTimer]. *)
Definition timerCallback (s : State) : State :=
  let s := set_timeElapsed (clock s - startTime s) s in
  set_timerText (timerDisplay (timeElapsed s)) s.

Definition resetTimer (s : State) : State :=
  let s := clearInterval (timerInterval s) s in
  let s := set_timerText (lit "00:00:00") s in
  let s := set_timerActive false s in
  set_timeElapsed 0 s.

(** [startRecording] up to its [await]. *)
Definition startRecording_request (s : State) : State :=
  let s := set_statusMessage "Requesting microphone access..." s in
  set_pendingAccess (S (pendingAccess s)) s.

(** The [catch] block of [startRecording]. *)
Definition startRecording_catch (s : State) : State :=
  let s :=
    set_statusMessage "Error: Microphone access denied or not available." s in
  set_recordDisabled false s.

(** [startRecording] from the point where [getUserMedia] has resolved. *)
Definition startRecording_granted (s : State) : State :=
  let sid := length (streams s) in
  let s := set_streams (streams s ++ [true]) s in
  let s := set_stream (Some sid) s in
  let r := length (recorders s) in
  let s := set_recorders (recorders s ++ [inactive]) s in
  let s := set_mediaRecorder (Some r) s in
  let s := set_audioChunks [] s in
  match recorder_start r s with
  | Throw _ s => startRecording_catch s
  | Normal s =>
      let s := set_isRecording true s in
      let s := set_recordRecording true s in
      let s := set_controlsHidden false s in
      let s := set_recordDisabled true s in
      let s := set_statusMessage "Recording..." s in
      let s := set_pauseResuming false s in
      let s := set_isPaused false s in
      startTimer s
  end.

(** The click listener of the record button. *)
Definition recordButton_click (s : State) : State :=
  if negb (isRecording s) then startRecording_request s else s.

(** [mediaRecorder.ondataavailable]. *)
Definition ondataavailable (data : Blob) (s : State) : State :=
  set_audioChunks (audioChunks s ++ [data]) s.

Definition togglePauseResume (s : State) : State :=
  match mediaRecorder s with
  | None => s
  | Some r =>
      if isPaused s then
        match recorder_resume r s with
        | Throw e s => set_uncaught (uncaught s ++ [e]) s
        | Normal s =>
            let s := set_isPaused false s in
            let s := set_pauseResuming false s in
            let s := set_statusMessage "Recording..." s in
            startTimer s
        end
      else
        match recorder_pause r s with
        | Throw e s => set_uncaught (uncaught s ++ [e]) s
        | Normal s =>
            let s := set_isPaused true s in
            let s := set_pauseResuming true s in
            let s :=
              set_statusMessage "Recording Paused. Tap play to resume." s in
            clearInterval (timerInterval s) s
        end
  end.

(** The guard of [stopRecording]:
    [mediaRecorder && mediaRecorder.state !== 'inactive']. *)
Definition recorderActive (s : State) : bool :=
  match mediaRecorder s with
  | Some r => bool_decide (recorderState r s ≠ inactive)
  | None => false
  end.

Definition stopRecording (s : State) : State :=
  let s :=
    match mediaRecorder s with
    | Some r => if recorderActive s then recorder_stop r s else s
    | None => s
    end in
  let s := set_statusMessage "Processing audio..." s in
  let s := set_recordDisabled false s in
  let s := set_recordRecording false s in
  let s := set_controlsHidden true s in
  let s := resetTimer s in
  let s := set_isRecording false s in
  set_isPaused false s.

Definition addAudioToDisplay (audioUrl : nat) (durationMs : Z)
    (date time : jsstring) (s : State) : State :=
  let item :=
    {| item_url := audioUrl;
       item_name := defaultName date time durationMs |} in
  set_audioList (item :: audioList s) s.

(** [mediaRecorder.onstop]. *)
Definition finishRecording (date time : jsstring) (s : State) : State :=
  let audioBlob := newBlob (audioChunks s) in
  let audioUrl := length (blobUrls s) in
  let s := createObjectURL audioBlob s in
  match stream s with
  | None => set_uncaught (uncaught s ++ [TypeError]) s
  | Some sid =>
      let s := stopTracks sid s in
      let s := addAudioToDisplay audioUrl (timeElapsed s) date time s in
      set_statusMessage "Ready to record again." s
  end.

(** The item of the list made for a given URL, if it is still there. *)
Definition findItem (url : nat) (s : State) : option Item :=
  List.find (fun it => Nat.eqb (item_url it) url) (audioList s).

Definition setName (url : nat) (name : jsstring) (it : Item) : Item :=
  if Nat.eqb (item_url it) url
  then {| item_url := item_url it; item_name := name |}
  else it.

(** [renameRecording(nameSpan)] for the name span of the item of [url];
    [answer] is what [prompt] returns, [None] for [null]. *)
Definition renameRecording (url : nat) (answer : option jsstring)
    (s : State) : State :=
  match answer with
  | Some newName =>
      if negb (bool_decide (newName = []))
         && negb (bool_decide (trim newName = []))
      then set_audioList (map (setName url (trim newName)) (audioList s)) s
      else s
  | None => s
  end.

(** [deleteRecording(itemDiv)] for the item of [url]; [confirmed] is what
    [confirm] returns. *)
Definition deleteRecording (url : nat) (confirmed : bool) (s : State)
  : State :=
  if confirmed then
    let s := revokeObjectURL url s in
    set_audioList
      (List.filter (fun it => negb (Nat.eqb (item_url it) url)) (audioList s))
      s
  else s.

Definition downloadRecording (url : nat) (filename : jsstring) (s : State)
  : State :=
  let s := log (CAnchorClick url (downloadName filename)) s in
  revokeObjectURL url s.

(** ** Events and runs *)

Inductive Event :=
| ClickRecord
| AccessGranted
| AccessDenied
| ClickPause
| ClickStop
| DataAvailable (r : nat) (data : Blob)
| RecorderStopped (r : nat) (date time : jsstring)
| TimerTick (id : nat)
| Elapse (dt : Z)
| ClickRename (url : nat) (answer : option jsstring)
| ClickDownload (url : nat)
| ClickDelete (url : nat) (confirmed : bool).

(** What happens in the page on an event. *)
Definition handle (e : Event) (s : State) : State :=
  match e with
  | ClickRecord => recordButton_click s
  | AccessGranted =>
      startRecording_granted (set_pendingAccess (pred (pendingAccess s)) s)
  | AccessDenied =>
      startRecording_catch (set_pendingAccess (pred (pendingAccess s)) s)
  | ClickPause => togglePauseResume s
  | ClickStop => stopRecording s
  | DataAvailable _ data => ondataavailable data s
  | RecorderStopped r date time =>
      finishRecording date time
        (set_pendingStop (List.filter (fun j => negb (Nat.eqb j r))
                            (pendingStop s)) s)
  | TimerTick _ => timerCallback s
  | Elapse dt => set_clock (clock s + dt) s
  | ClickRename url answer => renameRecording url answer s
  | ClickDownload url =>
      match findItem url s with
      | Some it => downloadRecording url (item_name it) s
      | None => s
      end
  | ClickDelete url confirmed => deleteRecording url confirmed s
  end.

(** When the browser can deliver the event. *)
Definition enabled (e : Event) (s : State) : bool :=
  match e with
  | ClickRecord | ClickPause | ClickStop => true
  | AccessGranted | AccessDenied => negb (Nat.eqb (pendingAccess s) 0)
  | DataAvailable r _ =>
      bool_decide (recorderState r s = recording)
      || bool_decide (r ∈ pendingStop s)
  | RecorderStopped r _ _ => bool_decide (r ∈ pendingStop s)
  | TimerTick id => bool_decide (id ∈ intervals s)
  | Elapse dt => 0 <=? dt
  | ClickRename url _ | ClickDownload url | ClickDelete url _ =>
      bool_decide (is_Some (findItem url s))
  end.

Definition exec (evs : list Event) (s : State) : State :=
  fold_left (fun s e => handle e s) evs s.

Fixpoint run (evs : list Event) (s : State) : option State :=
  match evs with
  | [] => Some s
  | e :: evs => if enabled e s then run evs (handle e s) else None
  end.

(** What the page shows before the script has done anything.  The markup
    is not part of the script, so it is a parameter. *)
Record Page := {
  page_status : string;
  page_timer : jsstring;
  page_timerActive : bool;
  page_recordDisabled : bool;
  page_recordRecording : bool;
  page_controlsHidden : bool;
  page_pauseResuming : bool
}.

(** The state when the script has been loaded.  [startTime] is undefined
    until [startTimer] assigns it and is read by the interval callback
    only, which does not exist before [startTimer] has run; the clock is
    counted from the loading of the page. *)
Definition initial (p : Page) : State :=
  {| mediaRecorder := None; audioChunks := []; stream := None;
     isRecording := false; isPaused := false; timerInterval := None;
     startTime := 0; timeElapsed := 0;
     statusMessage := page_status p; timerText := page_timer p;
     timerActive := page_timerActive p;
     recordDisabled := page_recordDisabled p;
     recordRecording := page_recordRecording p;
     controlsHidden := page_controlsHidden p;
     pauseResuming := page_pauseResuming p; audioList := [];
     clock := 0; recorders := []; streams := []; intervals := [];
     nextInterval := 0; blobUrls := []; pendingAccess := 0;
     pendingStop := []; calls := []; uncaught := [] |}.

(** A page as the script expects it: idle, controls hidden. *)
Definition page0 : Page :=
  {| page_status := "Click the microphone to start recording";
     page_timer := lit "00:00:00"; page_timerActive := false;
     page_recordDisabled := false; page_recordRecording := false;
     page_controlsHidden := true; page_pauseResuming := false |}.

Definition Reachable (p : Page) (s : State) : Prop :=
  ∃ evs, run evs (initial p) = Some s.

(** The lifecycle state of the session, read off the two flags. *)
Inductive Lifecycle := Idle | Recording | Paused.

Definition lifecycle (s : State) : Lifecycle :=
  if isRecording s then (if isPaused s then Paused else Recording) else Idle.

(** ** Vocabulary of the properties *)

(** A number below 100 written with exactly two decimal digits: what
    "zero-padded to two digits" means, said without [String] and
    [padStart]. *)
Definition two_digits (n : Z) : jsstring :=
  [Z.to_N (48 + n / 10); Z.to_N (48 + n mod 10)].

(** The ASCII letters and digits, listed. *)
Definition alnum_chars : jsstring :=
  lit "ABCDEFGHIJKLMNOPQRSTUVWXYZabcdefghijklmnopqrstuvwxyz0123456789".

(** A field that is padded to two digits and never cut: two digits below
    100, the plain decimal numeral from there on. *)
Definition padded_field (n : Z) : jsstring :=
  if n <? 100 then two_digits n else String_of n.

(** The events of a running session that leave the session running. *)
Definition in_session (e : Event) : bool :=
  match e with
  | DataAvailable _ _ | ClickPause | TimerTick _ | Elapse _ => true
  | _ => false
  end.

(** The fragments delivered by a sequence of events, in order. *)
Definition delivered (evs : list Event) : list Blob :=
  flat_map (fun e => match e with DataAvailable _ d => [d] | _ => [] end) evs.

(** A fragment of [n] bytes. *)
Definition frag (n : nat) : Blob := repeat x00 n.

Definition date0 : jsstring := lit "1/2/2026".
Definition time0 : jsstring := lit "10:00:00 AM".

(** Five seconds of recording, the timer firing every second. *)
Definition session_5s : list Event :=
  [ClickRecord; AccessGranted; Elapse 1000; TimerTick 0; Elapse 1000;
   TimerTick 0; Elapse 1000; TimerTick 0; Elapse 1000; TimerTick 0;
   Elapse 1000; TimerTick 0].

(** Two fragments, a pause, a resume, one more fragment. *)
Definition scenario_mid : list Event :=
  [DataAvailable 0 (frag 100); DataAvailable 0 (frag 200); ClickPause;
   ClickPause; DataAvailable 0 (frag 50)].

(** One short recording from start to the finished entry. *)
Definition one_recording : list Event :=
  [ClickRecord; AccessGranted; ClickStop; DataAvailable 0 (frag 3);
   RecorderStopped 0 date0 time0].

(** The flags and the recorder agree: the recorder held by
    [mediaRecorder] is recording, paused or inactive as the flags say. *)
Definition session_inv (s : State) : Prop :=
  (isPaused s = true -> isRecording s = true)
  ∧ match mediaRecorder s with
    | None => isRecording s = false
    | Some r =>
        recorderState r s
        = if isRecording s then (if isPaused s then paused else recording)
          else inactive
    end.

(** The clock never runs behind the timer's origin, and the elapsed time
    never runs ahead of the clock. *)
Definition timer_inv (s : State) : Prop :=
  0 <= timeElapsed s ∧ timeElapsed s <= clock s - startTime s.

(** The interval timer held by [timerInterval] is set. *)
Definition timerRunning (s : State) : Prop :=
  ∃ id, timerInterval s = Some id ∧ id ∈ intervals s.

(** A stream has been obtained whenever a recorder exists or a [stop]
    event is queued. *)
Definition stream_inv (s : State) : Prop :=
  (mediaRecorder s ≠ None -> is_Some (stream s))
  ∧ (pendingStop s ≠ [] -> is_Some (stream s)).

(** The list and the blob URL store: the items have distinct URLs, each
    one made by [createObjectURL], and the URL of a listed item is dead
    exactly when the item has been handed to a download. *)
Definition handed_over (url : nat) (s : State) : Prop :=
  ∃ name, CAnchorClick url name ∈ calls s.

Definition registry_inv (s : State) : Prop :=
  NoDup (map item_url (audioList s))
  ∧ (∀ url name, CAnchorClick url name ∈ calls s ->
       (url < length (blobUrls s))%nat)
  ∧ ∀ it, it ∈ audioList s ->
      ∃ b, blobUrls s !! item_url it = Some b
           ∧ (b = None <-> handed_over (item_url it) s).

(** Unfolding the script's functions down to field updates. *)
Ltac unfold_script :=
  unfold finishRecording, addAudioToDisplay, stopRecording, resetTimer,
    togglePauseResume, startTimer, timerCallback, startRecording_granted,
    startRecording_catch, startRecording_request, recordButton_click,
    ondataavailable, renameRecording, deleteRecording, downloadRecording,
    recorder_start, recorder_pause, recorder_resume, recorder_stop,
    createObjectURL, revokeObjectURL, stopTracks, setInterval, clearInterval,
    set_recorderState, log in *.

(** Case analysis on every branch the unfolded script takes. *)
Ltac script_cases :=
  unfold_script; cbn; repeat (case_match; simplify_eq/=);
  try reflexivity; try congruence.

(** [stopRecording] after its guarded first statement. *)
Definition stop_cleanup (s : State) : State :=
  let s := set_statusMessage "Processing audio..." s in
  let s := set_recordDisabled false s in
  let s := set_recordRecording false s in
  let s := set_controlsHidden true s in
  let s := resetTimer s in
  let s := set_isRecording false s in
  set_isPaused false s.

(** The events whose handlers work on the list or on blob URLs. *)
Definition touches_registry (e : Event) : bool :=
  match e with
  | RecorderStopped _ _ _ | ClickRename _ _ | ClickDownload _
  | ClickDelete _ _ => true
  | _ => false
  end.

(** Membership in a list written with [++] and [::]. *)
Ltac membership :=
  rewrite ?elem_of_app, ?elem_of_cons, ?elem_of_nil in *;
  intuition (try discriminate; try congruence).

(** * Properties *)

(** ** Formatting *)

Lemma pad2_below_100 (n : Z) :
  0 <= n < 100 -> padStart 2 zero_digit (String_of n) = two_digits n.
Proof.
  intros Hn.
  assert (Hall : forallb (fun k =>
            bool_decide (padStart 2 zero_digit (String_of (Z.of_nat k))
                         = two_digits (Z.of_nat k) :> list N))
            (seq 0 100) = true) by (vm_compute; reflexivity).
  rewrite forallb_forall in Hall.
  specialize (Hall (Z.to_nat n)).
  rewrite Z2Nat.id in Hall by lia.
  assert (Hin : In (Z.to_nat n) (seq 0 100)) by (apply in_seq; lia).
  apply Hall in Hin. now apply bool_decide_eq_true in Hin.
Qed.

Lemma lit_length (s : string) : length (lit s) = String.length s.
Proof. induction s as [|c s IH]; simpl; [reflexivity | now rewrite IH]. Qed.

(** From 10 on the decimal numeral has two digits or more, so padding to
    two leaves it alone: the field is not cut and not reduced. *)
Lemma pad2_from_10 (n : Z) :
  10 <= n -> padStart 2 zero_digit (String_of n) = String_of n.
Proof.
  intros Hn. unfold padStart, String_of.
  pose proof (DecimalZ.of_to n) as Hrt.
  destruct (Z.to_int n) as [d|d].
  - destruct d as [|d|d|d|d|d|d|d|d|d|d];
      try (destruct d; first [ cbn in Hrt; lia | simpl; reflexivity ]).
    cbn in Hrt; lia.
  - exfalso. cbn in Hrt.
    pose proof (N.le_0_l (Pos.of_uint d)) as H0.
    unfold Z.of_uint in Hrt. lia.
Qed.

Lemma isAlnum_spec (u : N) : isAlnum u = true <-> u ∈ alnum_chars.
Proof.
  split.
  - intros H.
    assert (Hu : (u <= 122)%N).
    { unfold isAlnum in H.
      rewrite !orb_true_iff, !andb_true_iff, !N.leb_le in H. lia. }
    assert (Hall : forallb (fun k =>
              implb (isAlnum (N.of_nat k))
                    (bool_decide (N.of_nat k ∈ (alnum_chars : list N))))
              (seq 0 123) = true) by (vm_compute; reflexivity).
    rewrite forallb_forall in Hall.
    specialize (Hall (N.to_nat u)). rewrite N2Nat.id, H in Hall.
    assert (Hin : In (N.to_nat u) (seq 0 123)) by (apply in_seq; lia).
    apply Hall in Hin. now apply bool_decide_eq_true in Hin.
  - intros H. unfold alnum_chars in H. cbn in H.
    repeat (apply elem_of_cons in H as [-> | H]; [reflexivity |]).
    inversion H.
Qed.

Lemma pad2_field (n : Z) :
  0 <= n -> padStart 2 zero_digit (String_of n) = padded_field n.
Proof.
  intros Hn. unfold padded_field.
  destruct (Z.ltb_spec n 100).
  - apply pad2_below_100. lia.
  - apply pad2_from_10. lia.
Qed.

(** C9.  For every [elapsedMs] from 0 up to, not including, 2^53 (the
    integers a double holds exactly) the timer text is
    [floor(elapsedMs/1000)] split into hours, minutes and seconds, each
    zero-padded to two digits and joined as HH:MM:SS; the hours are the
    whole quotient by 3600 (never reduced modulo 24).  3725000 ms gives
    "01:02:05", 0 ms gives "00:00:00", 25 hours give "25:00:00". *)
Theorem timer_display_format (elapsedMs : Z) :
  0 <= elapsedMs -> elapsedMs < 2 ^ 53 ->
  let total := elapsedMs / 1000 in
  let h := total / 3600 in
  let m := total mod 3600 / 60 in
  let s := total mod 60 in
  total = 3600 * h + 60 * m + s ∧ h = elapsedMs / 3600000
  ∧ 0 <= m < 60 ∧ 0 <= s < 60
  ∧ timerDisplay elapsedMs
    = padded_field h ++ lit ":" ++ two_digits m ++ lit ":" ++ two_digits s
  ∧ timerDisplay 3725000 = lit "01:02:05"
  ∧ timerDisplay 0 = lit "00:00:00"
  ∧ timerDisplay (3600000 * 25) = lit "25:00:00".
Proof.
  intros Hms _ total h m s.
  assert (Ht : 0 <= total) by (apply Z.div_pos; lia).
  assert (Hh : 0 <= h) by (apply Z.div_pos; lia).
  assert (Hm : 0 <= m < 60) by (subst m; Z.div_mod_to_equations; lia).
  assert (Hs : 0 <= s < 60) by (subst s; Z.div_mod_to_equations; lia).
  split; [subst h m s; Z.div_mod_to_equations; lia |].
  split; [subst h total; rewrite Z.div_div by lia; reflexivity |].
  do 2 (split; [assumption |]).
  split; [| repeat split; reflexivity].
  unfold timerDisplay. fold total.
  rewrite !Z.rem_mod_nonneg by lia. fold h m s.
  rewrite (pad2_field h) by assumption.
  rewrite (pad2_below_100 m), (pad2_below_100 s) by lia.
  reflexivity.
Qed.

Lemma timer_display_format_witness :
  timerDisplay 3725000
  = padded_field 1 ++ lit ":" ++ two_digits 2 ++ lit ":" ++ two_digits 5.
Proof.
  destruct (timer_display_format 3725000 ltac:(lia) ltac:(reflexivity))
    as (_ & _ & _ & _ & H & _).
  exact H.
Defined.

(** C10.  For every [durationMs] from 0 up to, not including, 2^53 (the
    integers a double holds exactly): in the default name the minutes
    field is the total number of whole minutes of the duration,
    zero-padded, not reduced modulo 60, and there is no hours field: from
    one hour on the name shows 60 minutes or more (61 minutes give
    "(61:00)"), where the timer shows "01:01:00". *)
Theorem default_name_total_minutes (date time : jsstring) (durationMs : Z) :
  0 <= durationMs -> durationMs < 2 ^ 53 ->
  let minutes := durationMs / 60000 in
  let seconds := durationMs / 1000 mod 60 in
  defaultName date time durationMs
  = lit "Recording " ++ date ++ lit " " ++ time ++ lit " ("
      ++ padded_field minutes ++ lit ":" ++ two_digits seconds ++ lit ")"
  ∧ (3600000 <= durationMs -> 60 <= minutes)
  ∧ defaultName date time (61 * 60000)
    = lit "Recording " ++ date ++ lit " " ++ time ++ lit " (61:00)"
  ∧ timerDisplay (61 * 60000) = lit "01:01:00".
Proof.
  intros Hms _ minutes seconds.
  assert (Ht : 0 <= durationMs / 1000) by (apply Z.div_pos; lia).
  split; [| split; [| split; reflexivity]].
  - unfold defaultName.
    rewrite Z.rem_mod_nonneg by lia.
    rewrite Z.div_div by lia. change (1000 * 60) with 60000.
    fold minutes seconds.
    rewrite (pad2_field minutes) by (apply Z.div_pos; lia).
    rewrite (pad2_below_100 seconds)
      by (subst seconds; Z.div_mod_to_equations; lia).
    reflexivity.
  - intros H. subst minutes. Z.div_mod_to_equations; lia.
Qed.

Lemma default_name_total_minutes_witness :
  defaultName (lit "1/2/2026") (lit "10:00:00") 4500000
  = lit "Recording 1/2/2026 10:00:00 (75:00)".
Proof.
  destruct (default_name_total_minutes (lit "1/2/2026") (lit "10:00:00")
              4500000 ltac:(lia) ltac:(reflexivity)) as (H & _).
  exact H.
Defined.

(** C7, as the script has it.  The download file name is the current name
    with every code unit outside [A-Za-z0-9] replaced by one underscore,
    followed by ".webm"; the name "My Recording! #1" has three such code
    units in a row after "Recording" and gives "My_Recording___1.webm". *)
Theorem download_name_spec (name : jsstring) :
  length (downloadName name) = (length name + 5)%nat
  ∧ (∀ (i : nat) (u : N), (name : list N) !! i = Some u ->
       (downloadName name : list N) !! i
       = Some (if bool_decide (u ∈ alnum_chars) then u else underscore))
  ∧ drop (length name) (downloadName name) = lit ".webm"
  ∧ downloadName (lit "My Recording! #1") = lit "My_Recording___1.webm".
Proof.
  unfold downloadName, sanitize.
  split; [rewrite length_app, length_map; reflexivity |].
  split; [| split; [| reflexivity]].
  - intros i u Hi.
    rewrite lookup_app_l
      by (rewrite length_map; eapply lookup_lt_Some; exact Hi).
    rewrite list_lookup_fmap, Hi. simpl. f_equal.
    destruct (isAlnum u) eqn:E.
    + rewrite bool_decide_eq_true_2; [reflexivity | now apply isAlnum_spec].
    + rewrite bool_decide_eq_false_2; [reflexivity |].
      intros H. apply isAlnum_spec in H. congruence.
  - rewrite drop_app_length'; [reflexivity | now rewrite length_map].
Qed.

(** C7, counterexample to the file name the claim gives for
    "My Recording! #1": it has two underscores where the script writes
    three. *)
Lemma download_name_example_differs :
  downloadName (lit "My Recording! #1") ≠ lit "My_Recording__1.webm".
Proof. discriminate. Qed.

(** ** Runs *)

Lemma exec_app (a b : list Event) (s : State) :
  exec (a ++ b) s = exec b (exec a s).
Proof. apply fold_left_app. Qed.

Lemma exec_cons (e : Event) (evs : list Event) (s : State) :
  exec (e :: evs) s = exec evs (handle e s).
Proof. reflexivity. Qed.

Lemma exec_nil (s : State) : exec [] s = s.
Proof. reflexivity. Qed.

Lemma handle_ClickStop (s : State) : handle ClickStop s = stopRecording s.
Proof. reflexivity. Qed.

Lemma handle_ClickPause (s : State) :
  handle ClickPause s = togglePauseResume s.
Proof. reflexivity. Qed.

Lemma run_snoc (evs : list Event) (e : Event) (s : State) :
  run (evs ++ [e]) s
  = match run evs s with
    | Some s' => if enabled e s' then Some (handle e s') else None
    | None => None
    end.
Proof.
  revert s. induction evs as [|e' evs IH]; intros s; cbn [run app].
  - destruct (enabled e s); reflexivity.
  - destruct (enabled e' s); [apply IH | reflexivity].
Qed.

(** Induction over the reachable states. *)
Lemma reachable_ind (P : State -> Prop) (p : Page) :
  P (initial p) ->
  (∀ e s, enabled e s = true -> Reachable p s -> P s -> P (handle e s)) ->
  ∀ s, Reachable p s -> P s.
Proof.
  intros H0 Hstep s [evs Hrun]. revert s Hrun.
  induction evs as [|e evs IH] using rev_ind; intros s Hrun.
  - cbn in Hrun. congruence.
  - rewrite run_snoc in Hrun.
    destruct (run evs (initial p)) as [s'|] eqn:E; [| discriminate].
    destruct (enabled e s') eqn:En; [| discriminate].
    injection Hrun as <-. apply Hstep; [assumption | | auto].
    exists evs. exact E.
Qed.

Lemma reachable_step (p : Page) (e : Event) (s : State) :
  Reachable p s -> enabled e s = true -> Reachable p (handle e s).
Proof.
  intros [evs Hrun] He. exists (evs ++ [e]).
  rewrite run_snoc, Hrun, He. reflexivity.
Qed.

(** ** The recorder and the flags *)

Lemma lookup_set_recorder (recs : list RecorderState) (r : nat)
    (st : RecorderState) :
  default inactive (recs !! r) ≠ inactive ->
  default inactive (<[r := st]> recs !! r) = st.
Proof.
  intros H. destruct (recs !! r) as [x|] eqn:E; [| contradiction].
  rewrite list_lookup_insert_eq; [reflexivity |].
  eapply lookup_lt_Some; exact E.
Qed.

Lemma lookup_new_recorder (recs : list RecorderState) (st : RecorderState) :
  (recs ++ [st]) !! length recs = Some st.
Proof. rewrite lookup_app_r by lia. now rewrite Nat.sub_diag. Qed.

Lemma insert_new_recorder (recs : list RecorderState)
    (st st' : RecorderState) :
  <[length recs := st']> (recs ++ [st]) = recs ++ [st'].
Proof. rewrite insert_app_r_alt by lia. now rewrite Nat.sub_diag. Qed.

Lemma inv_initial (p : Page) : session_inv (initial p).
Proof. split; [discriminate | reflexivity]. Qed.

Lemma inv_handle (e : Event) (s : State) :
  session_inv s -> session_inv (handle e s).
Proof.
  unfold session_inv, recorderState. intros [Hp Hr].
  destruct e; cbn [handle].
  all: unfold_script; unfold recorderActive, recorderState in *; cbn.
  all: repeat (case_match; simplify_eq/=);
    try (split; [tauto || congruence || auto | auto]).
  all: rewrite ?insert_new_recorder, ?lookup_new_recorder in *; cbn in *;
    try congruence.
  all: try (apply lookup_set_recorder; congruence).
  all: try (destruct (default inactive (recorders s !! n)); congruence).
  all: match goal with
       | H : bool_decide _ = false |- _ =>
           apply bool_decide_eq_false in H;
           destruct (default inactive (recorders s !! n));
           first [ congruence | exfalso; apply H; congruence ]
       end.
Qed.

Lemma inv_reachable (p : Page) (s : State) : Reachable p s -> session_inv s.
Proof.
  apply reachable_ind; [apply inv_initial |].
  intros e s' _ _. apply inv_handle.
Qed.

Lemma recorderActive_iff (s : State) :
  session_inv s -> (recorderActive s = true <-> isRecording s = true).
Proof.
  unfold session_inv, recorderActive. intros [Hp Hr].
  destruct (mediaRecorder s) as [r|].
  - rewrite bool_decide_eq_true, Hr.
    destruct (isRecording s), (isPaused s); split; congruence.
  - rewrite Hr. split; discriminate.
Qed.

Lemma lifecycle_Idle (s : State) :
  lifecycle s = Idle <-> isRecording s = false.
Proof.
  unfold lifecycle. destruct (isRecording s), (isPaused s);
    split; congruence.
Qed.

Lemma lifecycle_Paused (s : State) :
  lifecycle s = Paused <-> isRecording s = true ∧ isPaused s = true.
Proof.
  unfold lifecycle. destruct (isRecording s), (isPaused s);
    intuition congruence.
Qed.

Lemma lifecycle_Recording (s : State) :
  lifecycle s = Recording <-> isRecording s = true ∧ isPaused s = false.
Proof.
  unfold lifecycle. destruct (isRecording s), (isPaused s);
    intuition congruence.
Qed.

(** ** What a session leaves untouched *)

Lemma handle_in_session (e : Event) (s : State) :
  in_session e = true ->
  stream (handle e s) = stream s
  ∧ audioList (handle e s) = audioList s
  ∧ blobUrls (handle e s) = blobUrls s
  ∧ audioChunks (handle e s) = audioChunks s ++ delivered [e].
Proof.
  destruct e; try discriminate; intros _;
    cbn [handle delivered flat_map app];
    rewrite ?app_nil_r; repeat split; script_cases.
Qed.

Lemma exec_in_session (evs : list Event) (s : State) :
  forallb in_session evs = true ->
  stream (exec evs s) = stream s
  ∧ audioList (exec evs s) = audioList s
  ∧ blobUrls (exec evs s) = blobUrls s
  ∧ audioChunks (exec evs s) = audioChunks s ++ delivered evs.
Proof.
  revert s. induction evs as [|e evs IH]; intros s Hall.
  - cbn. rewrite app_nil_r. auto.
  - cbn [forallb] in Hall. apply andb_true_iff in Hall as [He Hevs].
    destruct (handle_in_session e s He) as (Hs & Hl & Hb & Hc).
    destruct (IH (handle e s) Hevs) as (Hs' & Hl' & Hb' & Hc').
    rewrite exec_cons.
    rewrite Hs', Hl', Hb', Hc', Hs, Hl, Hb, Hc.
    repeat split. rewrite <- app_assoc. f_equal.
    unfold delivered. cbn [flat_map]. now rewrite app_nil_r.
Qed.

Lemma delivered_data (r : nat) (ds : list Blob) :
  delivered (map (DataAvailable r) ds) = ds.
Proof.
  unfold delivered.
  induction ds as [|d ds IH]; cbn; [reflexivity | now rewrite IH].
Qed.

Lemma in_session_data (r : nat) (ds : list Blob) :
  forallb in_session (map (DataAvailable r) ds) = true.
Proof. induction ds; cbn; auto. Qed.

Lemma granted_frame (s : State) :
  (∃ sid, stream (handle AccessGranted s) = Some sid)
  ∧ audioChunks (handle AccessGranted s) = []
  ∧ audioList (handle AccessGranted s) = audioList s
  ∧ blobUrls (handle AccessGranted s) = blobUrls s.
Proof. cbn [handle]. repeat split; [eexists |..]; script_cases. Qed.

Lemma stop_frame (s : State) :
  stream (stopRecording s) = stream s
  ∧ audioChunks (stopRecording s) = audioChunks s
  ∧ audioList (stopRecording s) = audioList s
  ∧ blobUrls (stopRecording s) = blobUrls s.
Proof. repeat split; script_cases. Qed.

Lemma finish_adds_entry (date time : jsstring) (r : nat) (s : State) :
  is_Some (stream s) ->
  audioList (handle (RecorderStopped r date time) s)
  = {| item_url := length (blobUrls s);
       item_name := defaultName date time (timeElapsed s) |} :: audioList s
  ∧ blobUrls (handle (RecorderStopped r date time) s)
    = blobUrls s ++ [Some (concat (audioChunks s))].
Proof. intros [sid Hs]. cbn [handle]. split; script_cases. Qed.

Lemma exec_session_shape (s0 : State) (mid : list Event) (flush : list Blob)
    (r : nat) (date time : jsstring) :
  exec (AccessGranted :: mid ++ ClickStop :: map (DataAvailable r) flush
          ++ [RecorderStopped r date time]) s0
  = handle (RecorderStopped r date time)
      (exec (map (DataAvailable r) flush)
         (stopRecording (exec mid (handle AccessGranted s0)))).
Proof.
  rewrite exec_cons, exec_app, exec_cons, exec_app, exec_cons, exec_nil.
  rewrite handle_ClickStop. reflexivity.
Qed.

(** ** The duration handed to the list *)

(** Whatever the state, the entry made by [finishRecording] after
    [stopRecording] is named with a duration of zero: [stopRecording] has
    reset [timeElapsed] before the [stop] event is delivered. *)
Lemma finish_after_stop (date time : jsstring) (s : State) :
  audioList (finishRecording date time (stopRecording s))
  = match stream s with
    | Some _ =>
        {| item_url := length (blobUrls s);
           item_name := defaultName date time 0 |} :: audioList s
    | None => audioList s
    end.
Proof. script_cases. Qed.

(** C1, evaluated on five seconds of recording.  When stop is clicked
    five seconds have been accumulated and the timer shows "00:00:05";
    the entry made when the [stop] event arrives carries "(00:00)": the
    duration handed to [addAudioToDisplay] is 0, not 5000. *)
Theorem finished_duration_is_reset (date time : jsstring) :
  ∃ s, run session_5s (initial page0) = Some s
    ∧ lifecycle s = Recording ∧ timeElapsed s = 5000
    ∧ timerText s = lit "00:00:05"
    ∧ (audioList <$> run [ClickStop; RecorderStopped 0 date time] s)
      = Some [ {| item_url := 0%nat;
                  item_name := lit "Recording " ++ date ++ lit " " ++ time
                                 ++ lit " (00:00)" |} ]
    ∧ defaultName date time 5000
      = lit "Recording " ++ date ++ lit " " ++ time ++ lit " (00:05)".
Proof.
  eexists. split; [vm_compute; reflexivity |].
  repeat split; reflexivity.
Qed.

(** ** The payload *)

(** C2.  From any state, a session that starts, runs through any sequence
    of fragment deliveries, pause/resume clicks, timer ticks and passing
    time, is stopped, receives its last fragments and then its [stop]
    event, puts exactly one new entry at the front of the list, and the
    URL of that entry resolves to the concatenation of all the fragments
    delivered, in delivery order. *)
Theorem payload_is_concatenation (s0 : State) (mid : list Event)
    (flush : list Blob) (date time : jsstring) :
  forallb in_session mid = true ->
  let r := length (recorders s0) in
  let url := length (blobUrls s0) in
  let s := exec (AccessGranted :: mid ++ ClickStop
                   :: map (DataAvailable r) flush
                   ++ [RecorderStopped r date time]) s0 in
  (∃ name,
     audioList s = {| item_url := url; item_name := name |} :: audioList s0)
  ∧ resolveURL url s = Some (concat (delivered mid ++ flush)).
Proof.
  intros Hmid r url s. subst s url. rewrite exec_session_shape.
  generalize r. clear r. intros r.
  destruct (granted_frame s0) as ([sid Hs1] & Hc1 & Hl1 & Hb1).
  remember (handle AccessGranted s0) as s1 eqn:E1. clear E1.
  destruct (exec_in_session mid s1 Hmid) as (Hs2 & Hl2 & Hb2 & Hc2).
  remember (exec mid s1) as s2 eqn:E2. clear E2.
  destruct (stop_frame s2) as (Hs3 & Hc3 & Hl3 & Hb3).
  remember (stopRecording s2) as s3 eqn:E3. clear E3.
  destruct (exec_in_session (map (DataAvailable r) flush) s3
              (in_session_data r flush)) as (Hs4 & Hl4 & Hb4 & Hc4).
  remember (exec (map (DataAvailable r) flush) s3) as s4 eqn:E4. clear E4.
  assert (Hstream : is_Some (stream s4)) by (exists sid; congruence).
  destruct (finish_adds_entry date time r s4 Hstream) as (Hl5 & Hb5).
  remember (handle (RecorderStopped r date time) s4) as s5 eqn:E5. clear E5.
  assert (Hurl : length (blobUrls s4) = length (blobUrls s0)) by congruence.
  split.
  - exists (defaultName date time (timeElapsed s4)).
    rewrite Hl5, Hurl. f_equal. congruence.
  - unfold resolveURL. rewrite Hb5, <- Hurl.
    rewrite lookup_app_r by lia. rewrite Nat.sub_diag.
    cbn [lookup list_lookup mjoin option_join].
    do 2 f_equal. rewrite Hc4, Hc3, Hc2, Hc1, delivered_data. reflexivity.
Qed.

(** The scenario of the claim: fragments of 100 and 200 bytes, pause,
    resume, a fragment of 50 bytes, stop.  The run is one the browser can
    produce, and it ends with one entry whose payload has 350 bytes. *)
Lemma payload_is_concatenation_witness :
  let s0 := handle ClickRecord (initial page0) in
  let evs := AccessGranted :: scenario_mid ++ ClickStop
               :: map (DataAvailable 0) [] ++ [RecorderStopped 0 date0 time0] in
  run (ClickRecord :: evs) (initial page0) = Some (exec evs s0)
  ∧ (∃ name, audioList (exec evs s0)
             = [ {| item_url := 0%nat; item_name := name |} ])
  ∧ length <$> resolveURL 0 (exec evs s0) = Some 350%nat.
Proof.
  intros s0 evs.
  pose proof (payload_is_concatenation s0 scenario_mid [] date0 time0
                eq_refl) as H.
  cbv zeta in H.
  change (length (recorders s0)) with 0%nat in H.
  change (length (blobUrls s0)) with 0%nat in H.
  change (audioList s0) with (@nil Item) in H.
  destruct H as [Hl Hu].
  split; [vm_compute; reflexivity |].
  split; [exact Hl |].
  subst evs. rewrite Hu. reflexivity.
Defined.

(** ** Download *)

Lemma resolve_revoked (url : nat) (s : State) :
  resolveURL url (revokeObjectURL url s) = None.
Proof.
  unfold resolveURL, revokeObjectURL, log. cbn.
  destruct (decide (url < length (blobUrls s))%nat) as [Hlt|Hge].
  - now rewrite list_lookup_insert_eq.
  - rewrite list_insert_ge by lia.
    rewrite lookup_ge_None_2 by lia. reflexivity.
Qed.

Lemma resolve_revoked_other (url u : nat) (s : State) :
  u ≠ url -> resolveURL u (revokeObjectURL url s) = resolveURL u s.
Proof.
  intros Hne. unfold resolveURL, revokeObjectURL, log. cbn.
  now rewrite list_lookup_insert_ne.
Qed.

(** C3, evaluated on one recording that is then downloaded.  Before the
    download the entry's URL resolves to the payload.  The download leaves
    the entry in the list with its name, but the URL it revokes is the
    entry's own: afterwards the URL of the listed entry resolves to
    nothing, while its download button can still be clicked. *)
Theorem download_revokes_entry_url :
  ∃ s it, run one_recording (initial page0) = Some s
    ∧ audioList s = [it] ∧ item_url it = 0%nat
    ∧ resolveURL 0 s = Some (frag 3)
    ∧ audioList (handle (ClickDownload 0) s) = [it]
    ∧ resolveURL 0 (handle (ClickDownload 0) s) = None
    ∧ calls (handle (ClickDownload 0) s)
      = calls s ++ [CAnchorClick 0 (downloadName (item_name it));
                    CRevokeObjectURL 0]
    ∧ enabled (ClickDownload 0) (handle (ClickDownload 0) s) = true.
Proof.
  eexists. eexists. split; [vm_compute; reflexivity |].
  vm_compute. repeat split.
Qed.

(** ** The capture handle *)

Lemma handle_keeps_recorder (e : Event) (s : State) :
  mediaRecorder s ≠ None -> mediaRecorder (handle e s) ≠ None.
Proof. destruct e; cbn [handle]; script_cases. Qed.

(** C4, counterexample.  After one recording from start to the finished
    entry the state is Idle, nothing is pending, and [mediaRecorder] still
    holds the recorder: the handle is not null outside Recording and
    Paused. *)
Lemma handle_kept_after_finalize :
  ∃ s, Reachable page0 s
    ∧ lifecycle s = Idle ∧ pendingStop s = [] ∧ mediaRecorder s = Some 0%nat
    ∧ ¬ (mediaRecorder s ≠ None
         <-> lifecycle s = Recording ∨ lifecycle s = Paused).
Proof.
  eexists. split; [exists one_recording; vm_compute; reflexivity |].
  cbn. repeat split. intros [H _].
  destruct H as [H|H]; [discriminate | discriminate H | discriminate H].
Qed.

(** C4, as the script has it.  In every reachable state the recorder held
    by [mediaRecorder] is active (its state is not 'inactive') exactly when
    the session is Recording or Paused; while [mediaRecorder] is undefined
    the session is Idle; and once [mediaRecorder] holds a recorder no
    handler ever clears it. *)
Theorem recorder_active_iff_session (p : Page) (s : State) :
  Reachable p s ->
  (recorderActive s = true
   <-> lifecycle s = Recording ∨ lifecycle s = Paused)
  ∧ (mediaRecorder s = None -> lifecycle s = Idle)
  ∧ (∀ e, mediaRecorder s ≠ None -> mediaRecorder (handle e s) ≠ None).
Proof.
  intros Hreach. pose proof (inv_reachable p s Hreach) as Hinv.
  split; [| split].
  - rewrite (recorderActive_iff s Hinv).
    rewrite lifecycle_Recording, lifecycle_Paused.
    destruct (isRecording s), (isPaused s); intuition congruence.
  - intros Hnone. apply lifecycle_Idle.
    destruct Hinv as [_ Hr]. now rewrite Hnone in Hr.
  - intros e. apply handle_keeps_recorder.
Qed.

Lemma recorder_active_iff_session_witness :
  ∃ s, run one_recording (initial page0) = Some s
    ∧ (recorderActive s = true
       <-> lifecycle s = Recording ∨ lifecycle s = Paused).
Proof.
  eexists. split; [vm_compute; reflexivity |].
  eapply (recorder_active_iff_session page0).
  exists one_recording. vm_compute. reflexivity.
Defined.

(** ** Pause and resume *)

Lemma toggle_timeElapsed (s : State) :
  timeElapsed (togglePauseResume s) = timeElapsed s.
Proof. script_cases. Qed.

Lemma toggle_isRecording (s : State) :
  isRecording (togglePauseResume s) = isRecording s.
Proof. script_cases. Qed.

Lemma toggle_no_recorder (s : State) :
  mediaRecorder s = None -> togglePauseResume s = s.
Proof. intros H. unfold togglePauseResume. now rewrite H. Qed.

Lemma toggle_paused (s : State) (r : nat) :
  mediaRecorder s = Some r -> isPaused s = true ->
  recorderState r s = paused ->
  isPaused (togglePauseResume s) = false
  ∧ calls (togglePauseResume s) = calls s ++ [CRecorderResume r]
  ∧ recorderState r (togglePauseResume s) = recording
  ∧ uncaught (togglePauseResume s) = uncaught s.
Proof.
  unfold recorderState. intros Hr Hp Hst.
  unfold togglePauseResume, recorder_resume, recorderState.
  rewrite Hr, Hp. cbn. rewrite Hst. unfold startTimer. cbn.
  repeat split. apply lookup_set_recorder. congruence.
Qed.

Lemma toggle_recording (s : State) (r : nat) :
  mediaRecorder s = Some r -> isPaused s = false ->
  recorderState r s = recording ->
  isPaused (togglePauseResume s) = true
  ∧ calls (togglePauseResume s) = calls s ++ [CRecorderPause r]
  ∧ recorderState r (togglePauseResume s) = paused
  ∧ uncaught (togglePauseResume s) = uncaught s.
Proof.
  unfold recorderState. intros Hr Hp Hst.
  unfold togglePauseResume, recorder_pause, recorderState.
  rewrite Hr, Hp. cbn. rewrite Hst. unfold clearInterval. cbn.
  repeat split; try (case_match; reflexivity).
  case_match; cbn; apply lookup_set_recorder; congruence.
Qed.

(** C5, counterexample.  The handler of the pause button is a toggle:
    clicked while the session is Paused (so not Recording) it changes the
    lifecycle state, to Recording. *)
Lemma toggle_while_paused_resumes :
  ∃ s, Reachable page0 s
    ∧ lifecycle s = Paused
    ∧ lifecycle (togglePauseResume s) = Recording
    ∧ lifecycle (togglePauseResume s) ≠ lifecycle s.
Proof.
  eexists.
  split; [exists [ClickRecord; AccessGranted; ClickPause];
          vm_compute; reflexivity |].
  vm_compute. repeat split. discriminate.
Qed.

(** C5, as the script has it.  The pause button has one handler for pause
    and resume.  In every reachable state it leaves [timeElapsed] alone;
    while [mediaRecorder] is undefined it changes nothing at all; in the
    Idle state it leaves the state Idle; and in the Paused state it
    resumes: the state becomes Recording and the one operation invoked on
    the recorder is [resume]. *)
Theorem toggle_outside_recording (p : Page) (s : State) :
  Reachable p s ->
  timeElapsed (togglePauseResume s) = timeElapsed s
  ∧ (mediaRecorder s = None -> togglePauseResume s = s)
  ∧ (lifecycle s = Idle -> lifecycle (togglePauseResume s) = Idle)
  ∧ (lifecycle s = Paused ->
       lifecycle (togglePauseResume s) = Recording
       ∧ ∃ r, mediaRecorder s = Some r
              ∧ calls (togglePauseResume s) = calls s ++ [CRecorderResume r]).
Proof.
  intros Hreach. pose proof (inv_reachable p s Hreach) as [Hp Hr].
  split; [apply toggle_timeElapsed |].
  split; [apply toggle_no_recorder |].
  split.
  - rewrite !lifecycle_Idle, toggle_isRecording. auto.
  - rewrite lifecycle_Paused, lifecycle_Recording, toggle_isRecording.
    intros [HR HP].
    destruct (mediaRecorder s) as [r|] eqn:Hm; [| congruence].
    rewrite HR, HP in Hr.
    destruct (toggle_paused s r Hm HP Hr) as (H1 & H2 & _).
    split; [auto |]. exists r. auto.
Qed.

Lemma toggle_outside_recording_witness :
  ∃ s, run [ClickRecord; AccessGranted; ClickPause] (initial page0) = Some s
    ∧ lifecycle s = Paused
    ∧ timeElapsed (togglePauseResume s) = timeElapsed s.
Proof.
  eexists. split; [vm_compute; reflexivity |].
  split; [reflexivity |].
  eapply (toggle_outside_recording page0).
  exists [ClickRecord; AccessGranted; ClickPause]. vm_compute. reflexivity.
Defined.

(** ** Stop *)

(** Two states with the same fields are the same state. *)
Lemma state_ext (a b : State) :
  mediaRecorder a = mediaRecorder b ->
  audioChunks a = audioChunks b ->
  stream a = stream b ->
  isRecording a = isRecording b ->
  isPaused a = isPaused b ->
  timerInterval a = timerInterval b ->
  startTime a = startTime b ->
  timeElapsed a = timeElapsed b ->
  statusMessage a = statusMessage b ->
  timerText a = timerText b ->
  timerActive a = timerActive b ->
  recordDisabled a = recordDisabled b ->
  recordRecording a = recordRecording b ->
  controlsHidden a = controlsHidden b ->
  pauseResuming a = pauseResuming b ->
  audioList a = audioList b ->
  clock a = clock b ->
  recorders a = recorders b ->
  streams a = streams b ->
  intervals a = intervals b ->
  nextInterval a = nextInterval b ->
  blobUrls a = blobUrls b ->
  pendingAccess a = pendingAccess b ->
  pendingStop a = pendingStop b ->
  calls a = calls b ->
  uncaught a = uncaught b ->
  a = b.
Proof. destruct a, b; cbn; intros; subst; reflexivity. Qed.

Lemma filter_ne_idem (i : nat) (l : list nat) :
  filter (fun j => j ≠ i) (filter (fun j => j ≠ i) l)
  = filter (fun j => j ≠ i) l.
Proof.
  induction l as [|x l IH]; [reflexivity |].
  rewrite filter_cons. destruct (decide (x ≠ i)) as [Hx|Hx].
  - rewrite filter_cons. rewrite decide_True by exact Hx. now rewrite IH.
  - exact IH.
Qed.

Lemma stopRecording_eq (s : State) :
  stopRecording s
  = stop_cleanup
      match mediaRecorder s with
      | Some r => if recorderActive s then recorder_stop r s else s
      | None => s
      end.
Proof. reflexivity. Qed.

Lemma cleanup_recorder (s : State) :
  mediaRecorder (stop_cleanup s) = mediaRecorder s
  ∧ recorders (stop_cleanup s) = recorders s.
Proof. unfold stop_cleanup. split; script_cases. Qed.

Lemma cleanup_active (s : State) :
  recorderActive (stop_cleanup s) = recorderActive s.
Proof.
  destruct (cleanup_recorder s) as [Hm Hr].
  unfold recorderActive, recorderState. now rewrite Hm, Hr.
Qed.

Lemma cleanup_idem (s : State) :
  stop_cleanup (stop_cleanup s) = stop_cleanup s.
Proof.
  apply state_ext; unfold stop_cleanup; unfold_script; cbn;
    destruct (timerInterval s) as [i|] eqn:Hti; cbn; rewrite ?Hti; cbn;
    try reflexivity; try congruence.
  apply filter_ne_idem.
Qed.

Lemma recorder_stop_inactive (r : nat) (s : State) :
  mediaRecorder s = Some r -> recorderActive s = true ->
  recorderActive (recorder_stop r s) = false.
Proof.
  unfold recorderActive, recorder_stop, recorderState, set_recorderState, log.
  intros Hm. rewrite Hm. cbn. intros Ha.
  apply bool_decide_eq_true in Ha.
  destruct (default inactive (recorders s !! r)) eqn:E; [congruence | |];
    cbn; rewrite Hm; apply bool_decide_eq_false; intros Hne; apply Hne;
    apply lookup_set_recorder; congruence.
Qed.

Lemma stop_deactivates (s : State) : recorderActive (stopRecording s) = false.
Proof.
  rewrite stopRecording_eq, cleanup_active.
  destruct (mediaRecorder s) as [r|] eqn:Hm.
  - destruct (recorderActive s) eqn:Ha; [| exact Ha].
    now apply recorder_stop_inactive.
  - unfold recorderActive. now rewrite Hm.
Qed.

Lemma stop_when_inactive (s : State) :
  recorderActive s = false -> stopRecording s = stop_cleanup s.
Proof.
  intros Ha. rewrite stopRecording_eq, Ha. now destruct (mediaRecorder s).
Qed.

Lemma stop_stop (s : State) :
  stopRecording (stopRecording s) = stopRecording s.
Proof.
  rewrite (stop_when_inactive (stopRecording s)) by apply stop_deactivates.
  rewrite (stopRecording_eq s). apply cleanup_idem.
Qed.

Lemma cleanup_frame (s : State) :
  mediaRecorder (stop_cleanup s) = mediaRecorder s
  ∧ audioChunks (stop_cleanup s) = audioChunks s
  ∧ stream (stop_cleanup s) = stream s
  ∧ audioList (stop_cleanup s) = audioList s
  ∧ recorders (stop_cleanup s) = recorders s
  ∧ streams (stop_cleanup s) = streams s
  ∧ blobUrls (stop_cleanup s) = blobUrls s
  ∧ pendingStop (stop_cleanup s) = pendingStop s
  ∧ pendingAccess (stop_cleanup s) = pendingAccess s
  ∧ calls (stop_cleanup s) = calls s
  ∧ uncaught (stop_cleanup s) = uncaught s
  ∧ isRecording (stop_cleanup s) = false
  ∧ isPaused (stop_cleanup s) = false
  ∧ timeElapsed (stop_cleanup s) = 0
  ∧ statusMessage (stop_cleanup s) = "Processing audio..."%string.
Proof. unfold stop_cleanup. repeat split; script_cases. Qed.

(** C6, evaluated after a finished recording.  The page is Idle, no
    [stop] event is pending and the status reads "Ready to record again.".
    A call of [stopRecording] there requests no stop and queues no [stop]
    event, yet it replaces the status by "Processing audio...": the
    cleanup that the comment in [stopRecording] leaves to
    [finishRecording] to complete has nothing to complete it, where the
    claim says the call changes nothing. *)
Theorem stop_in_idle_changes_status :
  ∃ s, Reachable page0 s
    ∧ lifecycle s = Idle
    ∧ pendingStop s = []
    ∧ statusMessage s = "Ready to record again."%string
    ∧ calls (stopRecording s) = calls s
    ∧ pendingStop (stopRecording s) = []
    ∧ (∀ r date time,
         enabled (RecorderStopped r date time) (stopRecording s) = false)
    ∧ statusMessage (stopRecording s) = "Processing audio..."%string
    ∧ stopRecording s ≠ s.
Proof.
  eexists. split; [exists one_recording; vm_compute; reflexivity |].
  do 5 (split; [reflexivity |]).
  split; [intros r date time; reflexivity |].
  split; [reflexivity |].
  intros H. apply (f_equal statusMessage) in H. vm_compute in H.
  discriminate H.
Qed.

(** X13.  In every reachable state a second [stopRecording] right after
    a first changes nothing.  In the Idle state [stopRecording] invokes no
    browser operation and leaves the session Idle and the recorder, the
    chunks, the stream, the list, the blob URLs and the pending events as
    they are; the status text it writes there is "Processing audio...". *)
Theorem stop_idempotent (p : Page) (s : State) :
  Reachable p s ->
  stopRecording (stopRecording s) = stopRecording s
  ∧ (lifecycle s = Idle ->
       lifecycle (stopRecording s) = Idle
       ∧ mediaRecorder (stopRecording s) = mediaRecorder s
       ∧ audioChunks (stopRecording s) = audioChunks s
       ∧ stream (stopRecording s) = stream s
       ∧ audioList (stopRecording s) = audioList s
       ∧ recorders (stopRecording s) = recorders s
       ∧ streams (stopRecording s) = streams s
       ∧ blobUrls (stopRecording s) = blobUrls s
       ∧ pendingStop (stopRecording s) = pendingStop s
       ∧ pendingAccess (stopRecording s) = pendingAccess s
       ∧ calls (stopRecording s) = calls s
       ∧ uncaught (stopRecording s) = uncaught s
       ∧ statusMessage (stopRecording s) = "Processing audio..."%string).
Proof.
  intros Hreach. split; [apply stop_stop |].
  intros Hidle. pose proof (inv_reachable p s Hreach) as Hinv.
  assert (Ha : recorderActive s = false).
  { apply lifecycle_Idle in Hidle.
    destruct (recorderActive s) eqn:E; [| reflexivity].
    apply (recorderActive_iff s Hinv) in E. congruence. }
  rewrite (stop_when_inactive s Ha).
  destruct (cleanup_frame s)
    as (H1 & H2 & H3 & H4 & H5 & H6 & H7 & H8 & H9 & H10 & H11 & H12
        & H13 & H14 & H15).
  rewrite lifecycle_Idle. tauto.
Qed.

Lemma stop_idempotent_witness :
  ∃ s, run one_recording (initial page0) = Some s
    ∧ stopRecording (stopRecording s) = stopRecording s.
Proof.
  eexists. split; [vm_compute; reflexivity |].
  eapply (stop_idempotent page0).
  exists one_recording. vm_compute. reflexivity.
Defined.

(** ** The list and the blob URLs *)

Lemma registry_inv_frame (s s' : State) :
  audioList s' = audioList s -> blobUrls s' = blobUrls s ->
  (∀ u n, CAnchorClick u n ∈ calls s' <-> CAnchorClick u n ∈ calls s) ->
  registry_inv s -> registry_inv s'.
Proof.
  intros Hl Hb Hc (Hnd & Hlt & Hit).
  unfold registry_inv, handed_over. rewrite Hl, Hb.
  split; [exact Hnd |]. split.
  - intros u n H. apply Hc in H. eauto.
  - intros it Hin. destruct (Hit it Hin) as (b & Hb' & Hiff).
    exists b. split; [exact Hb' |]. rewrite Hiff. unfold handed_over.
    split; intros [n H]; exists n; apply Hc; exact H.
Qed.

Lemma handle_registry_frame (e : Event) (s : State) :
  touches_registry e = false ->
  audioList (handle e s) = audioList s
  ∧ blobUrls (handle e s) = blobUrls s
  ∧ ∀ u n, CAnchorClick u n ∈ calls (handle e s)
           <-> CAnchorClick u n ∈ calls s.
Proof.
  destruct e; try discriminate; intros _; cbn [handle];
    (split; [script_cases | split; [script_cases |]]);
    intros u n; script_cases; membership.
Qed.

Lemma item_in_store (s : State) (it : Item) :
  registry_inv s -> it ∈ audioList s ->
  (item_url it < length (blobUrls s))%nat.
Proof.
  intros (_ & _ & Hit) Hin. destruct (Hit it Hin) as (b & Hb & _).
  eapply lookup_lt_Some. exact Hb.
Qed.

Lemma url_in_store (s : State) (url : nat) :
  registry_inv s -> url ∈ map item_url (audioList s) ->
  (url < length (blobUrls s))%nat.
Proof.
  intros Hinv Hin. apply list_elem_of_fmap in Hin as (it & -> & Hit).
  now apply item_in_store.
Qed.

Lemma findItem_Some (url : nat) (it : Item) (s : State) :
  findItem url s = Some it -> it ∈ audioList s ∧ item_url it = url.
Proof.
  unfold findItem. intros H. apply find_some in H as [Hin Heq].
  split; [now apply list_elem_of_In | now apply Nat.eqb_eq].
Qed.

Lemma findItem_None (url : nat) (s : State) :
  findItem url s = None <-> url ∉ map item_url (audioList s).
Proof.
  unfold findItem. split.
  - intros H Hin. apply list_elem_of_fmap in Hin as (it & -> & Hit).
    apply list_elem_of_In in Hit.
    pose proof (find_none _ _ H it Hit) as Hf. cbn in Hf.
    now rewrite Nat.eqb_refl in Hf.
  - intros Hn. destruct (find _ _) as [it|] eqn:E; [| reflexivity].
    apply find_some in E as [Hin Heq]. exfalso. apply Hn.
    apply Nat.eqb_eq in Heq. subst url.
    apply list_elem_of_fmap. exists it. split; [reflexivity |].
    now apply list_elem_of_In.
Qed.

Lemma registry_inv_initial (p : Page) : registry_inv (initial p).
Proof.
  split; [constructor |]. split.
  - intros u n H. cbn in H. inversion H.
  - intros it H. cbn in H. inversion H.
Qed.

Lemma map_url_setName (url : nat) (name : jsstring) (l : list Item) :
  map item_url (map (setName url name) l) = map item_url l.
Proof.
  induction l as [|it l IH]; cbn; [reflexivity |]. rewrite IH. f_equal.
  unfold setName. now destruct (Nat.eqb (item_url it) url).
Qed.

Lemma elem_of_setName (url : nat) (name : jsstring) (l : list Item)
    (it' : Item) :
  it' ∈ map (setName url name) l ->
  ∃ it, it ∈ l ∧ item_url it' = item_url it.
Proof.
  intros H. apply list_elem_of_fmap in H as (it & -> & Hin).
  exists it. split; [exact Hin |].
  unfold setName. now destruct (Nat.eqb (item_url it) url).
Qed.

Lemma elem_of_filter_url (url : nat) (l : list Item) (it : Item) :
  it ∈ List.filter (fun it => negb (Nat.eqb (item_url it) url)) l
  <-> it ∈ l ∧ item_url it ≠ url.
Proof.
  rewrite !list_elem_of_In, filter_In, negb_true_iff, Nat.eqb_neq.
  reflexivity.
Qed.

Lemma NoDup_filter_url (url : nat) (l : list Item) :
  NoDup (map item_url l) ->
  NoDup (map item_url
           (List.filter (fun it => negb (Nat.eqb (item_url it) url)) l)).
Proof.
  induction l as [|it l IH]; cbn; [auto |].
  intros Hnd. apply NoDup_cons in Hnd as [Hnin Hnd].
  destruct (negb (Nat.eqb (item_url it) url)); cbn; [| auto].
  apply NoDup_cons. split; [| auto].
  intros Hin. apply Hnin.
  apply list_elem_of_fmap in Hin as (it' & Heq & Hin').
  apply elem_of_filter_url in Hin' as [Hin' _].
  apply list_elem_of_fmap. eauto.
Qed.

Lemma registry_inv_finish (r : nat) (date time : jsstring) (s : State) :
  registry_inv s -> registry_inv (handle (RecorderStopped r date time) s).
Proof.
  intros Hinv. pose proof Hinv as (Hnd & Hlt & Hit).
  assert (Hb : blobUrls (handle (RecorderStopped r date time) s)
               = blobUrls s ++ [Some (concat (audioChunks s))])
    by (cbn [handle]; script_cases).
  assert (Hc : ∀ u n,
             CAnchorClick u n ∈ calls (handle (RecorderStopped r date time) s)
             <-> CAnchorClick u n ∈ calls s)
    by (intros u n; cbn [handle]; script_cases; membership).
  assert (Hl : audioList (handle (RecorderStopped r date time) s)
               = audioList s
               ∨ ∃ name, audioList (handle (RecorderStopped r date time) s)
                         = {| item_url := length (blobUrls s);
                              item_name := name |} :: audioList s).
  { cbn [handle]. unfold_script. cbn. case_match; cbn; eauto. }
  remember (handle (RecorderStopped r date time) s) as s' eqn:E. clear E.
  assert (Hold : ∀ it, it ∈ audioList s ->
            ∃ b, blobUrls s' !! item_url it = Some b
                 ∧ (b = None <-> handed_over (item_url it) s')).
  { intros it Hin. destruct (Hit it Hin) as (b & Hb' & Hiff).
    exists b. split.
    - rewrite Hb. apply lookup_app_l_Some. exact Hb'.
    - rewrite Hiff. unfold handed_over.
      split; intros [n H]; exists n; apply Hc; exact H. }
  unfold registry_inv. split; [| split].
  - destruct Hl as [-> | [name ->]]; [exact Hnd |].
    cbn. apply NoDup_cons. split; [| exact Hnd].
    intros Hin. apply (url_in_store s _ Hinv) in Hin. lia.
  - intros u n H. apply Hc in H. apply Hlt in H.
    rewrite Hb, length_app. cbn. lia.
  - destruct Hl as [-> | [name ->]]; [exact Hold |].
    intros it Hin. apply elem_of_cons in Hin as [-> | Hin]; [| auto].
    cbn. exists (Some (concat (audioChunks s))). split.
    + rewrite Hb. rewrite lookup_app_r by lia.
      now rewrite Nat.sub_diag.
    + split; [discriminate |]. intros [n H]. apply Hc, Hlt in H. lia.
Qed.

Lemma registry_inv_rename (url : nat) (answer : option jsstring)
    (s : State) :
  registry_inv s -> registry_inv (handle (ClickRename url answer) s).
Proof.
  intros (Hnd & Hlt & Hit). cbn [handle]. unfold renameRecording.
  destruct answer as [newName|]; [| now repeat split].
  case_match; [| now repeat split].
  unfold registry_inv, handed_over. cbn.
  rewrite map_url_setName. split; [exact Hnd |]. split; [exact Hlt |].
  intros it' Hin. apply elem_of_setName in Hin as (it & Hin & ->).
  apply Hit. exact Hin.
Qed.

Lemma registry_inv_download (url : nat) (s : State) :
  registry_inv s -> registry_inv (handle (ClickDownload url) s).
Proof.
  intros Hinv. pose proof Hinv as (Hnd & Hlt & Hit). cbn [handle].
  destruct (findItem url s) as [it0|] eqn:Hf; [| exact Hinv].
  apply findItem_Some in Hf as [Hin0 Hurl0].
  pose proof (item_in_store s it0 Hinv Hin0) as Hlt0. rewrite Hurl0 in Hlt0.
  unfold registry_inv, handed_over, downloadRecording, revokeObjectURL, log.
  cbn. split; [exact Hnd |]. split.
  - intros u n H. rewrite length_insert. membership. eapply Hlt; eauto.
  - intros it Hin. destruct (Hit it Hin) as (b & Hb & Hiff).
    destruct (decide (item_url it = url)) as [Heq|Hne].
    + exists None. rewrite Heq. split.
      * now apply list_lookup_insert_eq.
      * split; [| reflexivity]. intros _.
        exists (downloadName (item_name it0)). membership.
    + exists b. split.
      * rewrite list_lookup_insert_ne by congruence. exact Hb.
      * rewrite Hiff. unfold handed_over.
        split; intros [n H]; exists n; membership.
Qed.

Lemma registry_inv_delete (url : nat) (confirmed : bool) (s : State) :
  registry_inv s -> registry_inv (handle (ClickDelete url confirmed) s).
Proof.
  intros (Hnd & Hlt & Hit). cbn [handle]. unfold deleteRecording.
  destruct confirmed; [| now repeat split].
  unfold registry_inv, handed_over, revokeObjectURL, log. cbn.
  split; [now apply NoDup_filter_url |]. split.
  - intros u n H. rewrite length_insert. membership. eapply Hlt; eauto.
  - intros it Hin. apply elem_of_filter_url in Hin as [Hin Hne].
    destruct (Hit it Hin) as (b & Hb & Hiff). exists b. split.
    + rewrite list_lookup_insert_ne by congruence. exact Hb.
    + rewrite Hiff. unfold handed_over.
      split; intros [n H]; exists n; membership.
Qed.

Lemma registry_inv_handle (e : Event) (s : State) :
  registry_inv s -> registry_inv (handle e s).
Proof.
  intros Hinv. destruct (touches_registry e) eqn:Ht.
  - destruct e; try discriminate Ht.
    + now apply registry_inv_finish.
    + now apply registry_inv_rename.
    + now apply registry_inv_download.
    + now apply registry_inv_delete.
  - destruct (handle_registry_frame e s Ht) as (Hl & Hb & Hc).
    now apply (registry_inv_frame s).
Qed.

Lemma registry_inv_reachable (p : Page) (s : State) :
  Reachable p s -> registry_inv s.
Proof.
  apply reachable_ind; [apply registry_inv_initial |].
  intros e s' _ _. apply registry_inv_handle.
Qed.

(** ** Delete *)

Lemma filter_url_absent (url : nat) (l : list Item) :
  url ∉ map item_url l ->
  List.filter (fun it => negb (Nat.eqb (item_url it) url)) l = l.
Proof.
  induction l as [|it l IH]; cbn; [reflexivity |].
  intros Hn. apply not_elem_of_cons in Hn as [Hne Hn].
  destruct (Nat.eqb_spec (item_url it) url) as [Heq|_]; [congruence |].
  cbn. now rewrite IH.
Qed.

Lemma length_filter_url (url : nat) (l : list Item) :
  NoDup (map item_url l) -> url ∈ map item_url l ->
  S (length (List.filter (fun it => negb (Nat.eqb (item_url it) url)) l))
  = length l.
Proof.
  induction l as [|it l IH]; cbn; intros Hnd Hin; [inversion Hin |].
  apply NoDup_cons in Hnd as [Hnin Hnd].
  destruct (Nat.eqb_spec (item_url it) url) as [Heq|Hne]; cbn.
  - rewrite filter_url_absent by congruence. reflexivity.
  - apply elem_of_cons in Hin as [Heq|Hin]; [congruence |].
    now rewrite IH.
Qed.

Lemma filter_url_sublist (url : nat) (l : list Item) :
  sublist (List.filter (fun it => negb (Nat.eqb (item_url it) url)) l) l.
Proof.
  induction l as [|it l IH]; cbn; [constructor |].
  destruct (negb (Nat.eqb (item_url it) url)); now constructor.
Qed.

Lemma findItem_is_Some (url : nat) (s : State) :
  is_Some (findItem url s) <-> url ∈ map item_url (audioList s).
Proof.
  rewrite <- not_eq_None_Some, findItem_None.
  destruct (decide (url ∈ map item_url (audioList s))); tauto.
Qed.

(** C8.  [deleteRecording] asks for confirmation.  Declined, it leaves the
    whole state as it is.  Confirmed, it revokes the entry's URL with one
    call, after which that URL resolves to nothing while every other URL
    resolves as before; the entry is gone from the list and the other
    entries stay, in their order; no button of the deleted entry can be
    clicked any more; and in a reachable state the list loses exactly the
    one entry. *)
Theorem delete_spec (url : nat) (s : State) :
  deleteRecording url false s = s
  ∧ calls (deleteRecording url true s) = calls s ++ [CRevokeObjectURL url]
  ∧ resolveURL url (deleteRecording url true s) = None
  ∧ (∀ u, u ≠ url ->
       resolveURL u (deleteRecording url true s) = resolveURL u s)
  ∧ (∀ it, it ∈ audioList (deleteRecording url true s)
           <-> it ∈ audioList s ∧ item_url it ≠ url)
  ∧ sublist (audioList (deleteRecording url true s)) (audioList s)
  ∧ (∀ answer confirmed,
       enabled (ClickRename url answer) (deleteRecording url true s) = false
       ∧ enabled (ClickDownload url) (deleteRecording url true s) = false
       ∧ enabled (ClickDelete url confirmed) (deleteRecording url true s)
         = false)
  ∧ (∀ p, Reachable p s -> is_Some (findItem url s) ->
       S (length (audioList (deleteRecording url true s)))
       = length (audioList s)).
Proof.
  split; [reflexivity |].
  split; [reflexivity |].
  split; [apply (resolve_revoked url s) |].
  split; [intros u Hu; apply (resolve_revoked_other url u s Hu) |].
  split; [intros it; apply elem_of_filter_url |].
  split; [apply filter_url_sublist |].
  assert (Hgone : findItem url (deleteRecording url true s) = None).
  { apply findItem_None. intros Hin.
    apply list_elem_of_fmap in Hin as (it & Hu & Hin).
    apply elem_of_filter_url in Hin as [_ Hne]. congruence. }
  split.
  - intros answer confirmed. cbn [enabled]. rewrite Hgone.
    repeat split; apply bool_decide_eq_false; intros [x Hx]; discriminate.
  - intros p Hreach Hsome.
    apply registry_inv_reachable in Hreach as (Hnd & _).
    apply findItem_is_Some in Hsome.
    now apply length_filter_url.
Qed.

Lemma delete_spec_witness :
  ∃ s, run one_recording (initial page0) = Some s
    ∧ length (audioList s) = 1%nat
    ∧ length (audioList (deleteRecording 0 true s)) = 0%nat.
Proof.
  eexists. split; [vm_compute; reflexivity |]. split; [reflexivity |].
  match goal with
  | |- length (audioList (deleteRecording 0 true ?s)) = _ =>
      destruct (delete_spec 0 s) as (_ & _ & _ & _ & _ & _ & _ & H)
  end.
  specialize (H page0).
  apply eq_add_S. rewrite H; [reflexivity | |].
  - exists one_recording. vm_compute. reflexivity.
  - vm_compute. eauto.
Defined.

(** ** The branches of pause, resume and stop *)

Lemma toggle_resume_eq (s : State) (r : nat) :
  mediaRecorder s = Some r -> isPaused s = true ->
  recorderState r s = paused ->
  togglePauseResume s
  = startTimer
      (set_statusMessage "Recording..."
         (set_pauseResuming false
            (set_isPaused false
               (set_recorderState r recording
                  (log (CRecorderResume r) s))))).
Proof.
  intros Hm Hp Hst. unfold togglePauseResume, recorder_resume.
  rewrite Hm, Hp.
  change (recorderState r (log (CRecorderResume r) s))
    with (recorderState r s).
  rewrite Hst. reflexivity.
Qed.

Lemma toggle_pause_eq (s : State) (r : nat) :
  mediaRecorder s = Some r -> isPaused s = false ->
  recorderState r s = recording ->
  togglePauseResume s
  = clearInterval (timerInterval s)
      (set_statusMessage "Recording Paused. Tap play to resume."
         (set_pauseResuming true
            (set_isPaused true
               (set_recorderState r paused
                  (log (CRecorderPause r) s))))).
Proof.
  intros Hm Hp Hst. unfold togglePauseResume, recorder_pause.
  rewrite Hm, Hp.
  change (recorderState r (log (CRecorderPause r) s))
    with (recorderState r s).
  rewrite Hst. reflexivity.
Qed.

Lemma toggle_throw_eq (s : State) (r : nat) :
  mediaRecorder s = Some r -> recorderState r s = inactive ->
  togglePauseResume s
  = set_uncaught (uncaught s ++ [InvalidStateError])
      (log (if isPaused s then CRecorderResume r else CRecorderPause r) s).
Proof.
  intros Hm Hst. unfold togglePauseResume, recorder_pause, recorder_resume.
  rewrite Hm. destruct (isPaused s).
  - change (recorderState r (log (CRecorderResume r) s))
      with (recorderState r s).
    rewrite Hst. reflexivity.
  - change (recorderState r (log (CRecorderPause r) s))
      with (recorderState r s).
    rewrite Hst. reflexivity.
Qed.

Lemma stop_active_eq (s : State) (r : nat) :
  mediaRecorder s = Some r -> recorderState r s ≠ inactive ->
  stopRecording s
  = stop_cleanup
      (set_pendingStop (pendingStop s ++ [r])
         (set_recorderState r inactive (log (CRecorderStop r) s))).
Proof.
  intros Hm Hst. rewrite stopRecording_eq. rewrite Hm.
  unfold recorderActive. rewrite Hm.
  rewrite bool_decide_eq_true_2 by exact Hst.
  unfold recorder_stop.
  change (recorderState r (log (CRecorderStop r) s))
    with (recorderState r s).
  destruct (recorderState r s); [congruence | reflexivity | reflexivity].
Qed.

(** What the flags say about the recorder, case by case. *)
Lemma session_cases (s : State) :
  session_inv s ->
  (mediaRecorder s = None ∧ isRecording s = false ∧ isPaused s = false)
  ∨ (∃ r, mediaRecorder s = Some r ∧ recorderState r s = inactive
          ∧ isRecording s = false ∧ isPaused s = false)
  ∨ (∃ r, mediaRecorder s = Some r ∧ recorderState r s = recording
          ∧ isRecording s = true ∧ isPaused s = false)
  ∨ (∃ r, mediaRecorder s = Some r ∧ recorderState r s = paused
          ∧ isRecording s = true ∧ isPaused s = true).
Proof.
  intros [Hp Hr].
  destruct (mediaRecorder s) as [r|]; destruct (isRecording s) eqn:HR;
    destruct (isPaused s) eqn:HP; try (specialize (Hp eq_refl)); try congruence.
  - right. right. right. eauto.
  - right. right. left. eauto.
  - right. left. eauto.
  - left. auto.
Qed.

(** ** The timer *)

Lemma timer_inv_initial (p : Page) : timer_inv (initial p).
Proof. unfold timer_inv. cbn. lia. Qed.

Lemma timer_inv_handle (e : Event) (s : State) :
  enabled e s = true -> timer_inv s -> timer_inv (handle e s).
Proof.
  unfold timer_inv. intros He [H0 H1].
  destruct e; cbn [handle enabled] in *.
  all: unfold_script; cbn; repeat (case_match; simplify_eq/=); cbn; lia.
Qed.

Lemma timer_inv_reachable (p : Page) (s : State) :
  Reachable p s -> timer_inv s.
Proof.
  apply reachable_ind; [apply timer_inv_initial |].
  intros e s' He _. now apply timer_inv_handle.
Qed.

Lemma timerText_frame (e : Event) (s : State) :
  (∀ id, e ≠ TimerTick id) -> e ≠ ClickStop ->
  timerText (handle e s) = timerText s.
Proof.
  intros Ht Hs.
  destruct e; try congruence; cbn [handle]; try script_cases.
  all: exfalso; eapply Ht; reflexivity.
Qed.

Lemma timer_text_reachable (p : Page) (s : State) :
  Reachable p s ->
  timerText s = page_timer p
  ∨ ∃ ms, 0 <= ms ∧ timerText s = timerDisplay ms.
Proof.
  revert s.
  apply (reachable_ind
           (fun s => timerText s = page_timer p
                     ∨ ∃ ms, 0 <= ms ∧ timerText s = timerDisplay ms) p);
    [left; reflexivity |].
  intros e s' He Hreach IH.
  destruct e;
    try (rewrite timerText_frame by (repeat intro; discriminate); exact IH).
  - right. exists 0. split; [lia |]. cbn [handle]. script_cases.
  - apply timer_inv_reachable in Hreach as [H0 H1].
    right. exists (clock s' - startTime s'). split; [lia | reflexivity].
Qed.

(** X3.  In every reachable state the elapsed time is not negative, a
    firing of the interval callback never makes it smaller, and the timer
    shows either what the page showed at first or the HH:MM:SS text of a
    non-negative number of milliseconds. *)
Theorem elapsed_time_monotone (p : Page) (s : State) :
  Reachable p s ->
  0 <= timeElapsed s
  ∧ timeElapsed s <= timeElapsed (timerCallback s)
  ∧ (timerText s = page_timer p
     ∨ ∃ ms, 0 <= ms ∧ timerText s = timerDisplay ms).
Proof.
  intros Hreach. pose proof (timer_inv_reachable p s Hreach) as [H0 H1].
  split; [exact H0 |]. split; [exact H1 |].
  now apply timer_text_reachable.
Qed.

Lemma elapsed_time_monotone_witness :
  ∃ s, run session_5s (initial page0) = Some s
    ∧ timeElapsed s <= timeElapsed (timerCallback s).
Proof.
  eexists. split; [vm_compute; reflexivity |].
  eapply (elapsed_time_monotone page0).
  exists session_5s. vm_compute. reflexivity.
Defined.

(** ** The timer runs exactly while recording *)

Lemma startTimer_running (s : State) : timerRunning (startTimer s).
Proof.
  exists (nextInterval s). unfold startTimer, setInterval. cbn.
  split; [reflexivity | membership].
Qed.

Lemma clearInterval_not_running (s : State) :
  ¬ timerRunning (clearInterval (timerInterval s) s).
Proof.
  intros (id & Hid & Hin). unfold clearInterval in *.
  destruct (timerInterval s) as [i|] eqn:E; cbn in *.
  - rewrite E in Hid. injection Hid as ->.
    apply list_elem_of_filter in Hin as [Hne _]. congruence.
  - congruence.
Qed.

Lemma running_same (s s' : State) :
  timerInterval s' = timerInterval s -> intervals s' = intervals s ->
  (timerRunning s' <-> timerRunning s).
Proof. unfold timerRunning. intros -> ->. reflexivity. Qed.

Lemma cleanup_not_running (s : State) : ¬ timerRunning (stop_cleanup s).
Proof.
  intros H. apply (clearInterval_not_running s).
  revert H. apply running_same.
  - unfold stop_cleanup. script_cases.
  - unfold stop_cleanup. script_cases.
Qed.

Lemma stop_not_running (s : State) : ¬ timerRunning (stopRecording s).
Proof. rewrite stopRecording_eq. apply cleanup_not_running. Qed.

Lemma granted_timer (s : State) :
  timerRunning (handle AccessGranted s)
  ∧ isRecording (handle AccessGranted s) = true
  ∧ isPaused (handle AccessGranted s) = false.
Proof.
  cbn [handle].
  unfold startRecording_granted, recorder_start, recorderState,
    set_recorderState, log.
  cbn. rewrite lookup_new_recorder. cbn.
  split; [apply startTimer_running | split; reflexivity].
Qed.

Lemma flags_startTimer (s : State) :
  isRecording (startTimer s) = isRecording s
  ∧ isPaused (startTimer s) = isPaused s.
Proof. split; reflexivity. Qed.

Lemma flags_clearInterval (id : option nat) (s : State) :
  isRecording (clearInterval id s) = isRecording s
  ∧ isPaused (clearInterval id s) = isPaused s
  ∧ timerInterval (clearInterval id s) = timerInterval s.
Proof. destruct id; repeat split; reflexivity. Qed.

Lemma running_toggle (s : State) :
  session_inv s ->
  (timerRunning s <-> lifecycle s = Recording) ->
  (timerRunning (togglePauseResume s)
   <-> lifecycle (togglePauseResume s) = Recording).
Proof.
  intros Hinv IH. rewrite lifecycle_Recording in *.
  destruct (session_cases s Hinv)
    as [(Hm & HR & HP) | [(r & Hm & Hst & HR & HP)
       | [(r & Hm & Hst & HR & HP) | (r & Hm & Hst & HR & HP)]]].
  - now rewrite (toggle_no_recorder s Hm).
  - rewrite (toggle_throw_eq s r Hm Hst). exact IH.
  - rewrite (toggle_pause_eq s r Hm HP Hst).
    match goal with
    | |- timerRunning (clearInterval _ ?x) <-> _ =>
        destruct (flags_clearInterval (timerInterval s) x) as (_ & H2 & _);
        rewrite H2;
        pose proof (clearInterval_not_running x) as Hn
    end.
    split; [intros H; exfalso; apply Hn; exact H |].
    intros [_ H]. discriminate H.
  - rewrite (toggle_resume_eq s r Hm HP Hst).
    match goal with
    | |- timerRunning (startTimer ?x) <-> _ =>
        destruct (flags_startTimer x) as (H1 & H2); rewrite H1, H2
    end.
    split; [intros _ | intros _; apply startTimer_running].
    split; [exact HR | reflexivity].
Qed.

Lemma running_stop (s : State) :
  timerRunning (stopRecording s) <-> lifecycle (stopRecording s) = Recording.
Proof.
  rewrite lifecycle_Recording. split.
  - intros H. exfalso. now apply (stop_not_running s).
  - intros [H _]. rewrite stopRecording_eq in H.
    match type of H with
    | isRecording (stop_cleanup ?x) = _ =>
        destruct (cleanup_frame x)
          as (_ & _ & _ & _ & _ & _ & _ & _ & _ & _ & _ & HR & _)
    end.
    congruence.
Qed.

Lemma running_other (e : Event) (s : State) :
  e ≠ AccessGranted -> e ≠ ClickPause -> e ≠ ClickStop ->
  timerInterval (handle e s) = timerInterval s
  ∧ intervals (handle e s) = intervals s
  ∧ isRecording (handle e s) = isRecording s
  ∧ isPaused (handle e s) = isPaused s.
Proof.
  intros H1 H2 H3. destruct e; try congruence; cbn [handle];
    repeat split; script_cases.
Qed.

Lemma running_handle (e : Event) (s : State) :
  session_inv s ->
  (timerRunning s <-> lifecycle s = Recording) ->
  (timerRunning (handle e s) <-> lifecycle (handle e s) = Recording).
Proof.
  intros Hinv IH.
  destruct e;
    try (match goal with
         | |- context [handle ?e s] =>
             destruct (running_other e s ltac:(discriminate)
                         ltac:(discriminate) ltac:(discriminate))
               as (Hi & Hl & HR & HP)
         end;
         rewrite lifecycle_Recording in *;
         rewrite (running_same s _ Hi Hl), HR, HP; exact IH).
  - destruct (granted_timer s) as (H1 & H2 & H3).
    rewrite lifecycle_Recording. tauto.
  - now apply running_toggle.
  - apply running_stop.
Qed.

(** X5.  In every reachable state the interval timer that [timerInterval]
    holds is set exactly when the session is Recording (neither Idle nor
    Paused): the timer is started with the recording and on resume, and
    cleared on pause and on stop. *)
Theorem timer_runs_iff_recording (p : Page) (s : State) :
  Reachable p s -> (timerRunning s <-> lifecycle s = Recording).
Proof.
  revert s.
  apply (reachable_ind
           (fun s => timerRunning s <-> lifecycle s = Recording) p).
  - split; [intros (id & H & _); discriminate H | discriminate].
  - intros e s He Hreach IH. apply running_handle; [| exact IH].
    now apply (inv_reachable p).
Qed.

Lemma timer_runs_iff_recording_witness :
  ∃ s, run session_5s (initial page0) = Some s ∧ timerRunning s.
Proof.
  eexists. split; [vm_compute; reflexivity |].
  eapply (timer_runs_iff_recording page0).
  - exists session_5s. vm_compute. reflexivity.
  - reflexivity.
Defined.

(** ** Stop on a running session *)

Lemma cleanup_timer (s : State) :
  timerText (stop_cleanup s) = lit "00:00:00"
  ∧ timerActive (stop_cleanup s) = false
  ∧ controlsHidden (stop_cleanup s) = true
  ∧ recordDisabled (stop_cleanup s) = false.
Proof. unfold stop_cleanup. repeat split; script_cases. Qed.

(** X10.  In every reachable state in which a session is Recording or
    Paused, [stopRecording] calls [stop] on the current recorder, once;
    the recorder is inactive at once and one [stop] event is queued for
    it, which the browser can then deliver; the session is Idle, the
    elapsed time is 0, the timer shows "00:00:00" and is no longer
    running. *)
Theorem stop_running_session (p : Page) (s : State) (date time : jsstring) :
  Reachable p s -> lifecycle s ≠ Idle ->
  ∃ r, mediaRecorder s = Some r
    ∧ calls (stopRecording s) = calls s ++ [CRecorderStop r]
    ∧ pendingStop (stopRecording s) = pendingStop s ++ [r]
    ∧ recorderState r (stopRecording s) = inactive
    ∧ lifecycle (stopRecording s) = Idle
    ∧ timeElapsed (stopRecording s) = 0
    ∧ timerText (stopRecording s) = lit "00:00:00"
    ∧ ¬ timerRunning (stopRecording s)
    ∧ enabled (RecorderStopped r date time) (stopRecording s) = true.
Proof.
  intros Hreach Hlife. pose proof (inv_reachable p s Hreach) as Hinv.
  rewrite lifecycle_Idle in Hlife.
  assert (∃ r, mediaRecorder s = Some r ∧ recorderState r s ≠ inactive)
    as (r & Hm & Hst).
  { destruct (session_cases s Hinv)
      as [(Hm & HR & HP) | [(r & Hm & Hst & HR & HP)
         | [(r & Hm & Hst & HR & HP) | (r & Hm & Hst & HR & HP)]]];
      try congruence; exists r; split; congruence. }
  exists r. split; [exact Hm |].
  pose proof (stop_not_running s) as Hnr.
  rewrite (stop_active_eq s r Hm Hst) in *.
  match goal with
  | |- context [stop_cleanup ?x] =>
      destruct (cleanup_frame x)
        as (_ & _ & _ & _ & H5 & _ & _ & H8 & _ & H10 & _ & H12 & _ & H14 & _);
      destruct (cleanup_timer x) as (HT & _)
  end.
  assert (Hin : recorderState r
                  (stop_cleanup
                     (set_pendingStop (pendingStop s ++ [r])
                        (set_recorderState r inactive
                           (log (CRecorderStop r) s)))) = inactive).
  { unfold recorderState. rewrite H5. cbn.
    apply lookup_set_recorder. exact Hst. }
  rewrite lifecycle_Idle.
  repeat split; try assumption.
  cbn [enabled]. rewrite H8. cbn. apply bool_decide_eq_true. membership.
Qed.

Lemma stop_running_session_witness :
  ∃ s, run session_5s (initial page0) = Some s
    ∧ lifecycle (stopRecording s) = Idle.
Proof.
  eexists. split; [vm_compute; reflexivity |].
  match goal with
  | |- lifecycle (stopRecording ?s) = _ =>
      destruct (stop_running_session page0 s [] [])
        as (r & _ & _ & _ & _ & H & _)
  end; [ exists session_5s; vm_compute; reflexivity | | exact H ].
  discriminate.
Defined.

(** ** Exceptions *)

Lemma stream_inv_initial (p : Page) : stream_inv (initial p).
Proof. split; cbn; congruence. Qed.

Lemma stream_never_lost (e : Event) (s : State) :
  is_Some (stream s) -> is_Some (stream (handle e s)).
Proof. destruct e; cbn [handle]; script_cases; eauto. Qed.

Lemma recorder_var_frame (e : Event) (s : State) :
  e ≠ AccessGranted -> mediaRecorder (handle e s) = mediaRecorder s.
Proof. intros H. destruct e; try congruence; cbn [handle]; script_cases. Qed.

Lemma pendingStop_frame (e : Event) (s : State) :
  e ≠ ClickStop -> (∀ r d t, e ≠ RecorderStopped r d t) ->
  pendingStop (handle e s) = pendingStop s.
Proof.
  intros H1 H2.
  destruct e; try congruence; cbn [handle]; try script_cases.
  all: exfalso; eapply H2; reflexivity.
Qed.

Lemma pendingStop_finish (r : nat) (date time : jsstring) (s : State) :
  pendingStop (handle (RecorderStopped r date time) s)
  = List.filter (fun j => negb (Nat.eqb j r)) (pendingStop s).
Proof. cbn [handle]. script_cases. Qed.

Lemma stop_no_recorder (s : State) :
  mediaRecorder s = None -> stopRecording s = stop_cleanup s.
Proof. intros Hm. rewrite stopRecording_eq, Hm. reflexivity. Qed.

Lemma granted_stream (s : State) :
  is_Some (stream (handle AccessGranted s)).
Proof. destruct (granted_frame s) as ([sid H] & _). rewrite H. eauto. Qed.

Lemma stream_inv_handle (e : Event) (s : State) :
  stream_inv s -> stream_inv (handle e s).
Proof.
  intros [H1 H2].
  destruct (stream s) as [sid|] eqn:Hs.
  { assert (is_Some (stream (handle e s)))
      by (apply stream_never_lost; rewrite Hs; eauto).
    split; auto. }
  assert (Hm : mediaRecorder s = None).
  { destruct (mediaRecorder s); [| reflexivity].
    destruct H1 as [x Hx]; congruence. }
  assert (Hp : pendingStop s = []).
  { destruct (pendingStop s); [reflexivity |].
    destruct H2 as [x Hx]; congruence. }
  destruct e;
    try (split; intros H; exfalso; apply H;
         [ rewrite recorder_var_frame by discriminate; exact Hm
         | rewrite pendingStop_frame by (repeat intro; discriminate);
           exact Hp ]).
  - split; intros _; apply granted_stream.
  - split; intros H; exfalso; apply H.
    + rewrite recorder_var_frame by discriminate. exact Hm.
    + cbn [handle]. rewrite (stop_no_recorder s Hm).
      destruct (cleanup_frame s)
        as (_ & _ & _ & _ & _ & _ & _ & H8 & _).
      congruence.
  - split; intros H; exfalso; apply H.
    + rewrite recorder_var_frame by discriminate. exact Hm.
    + rewrite pendingStop_finish, Hp. reflexivity.
Qed.

Lemma stream_inv_reachable (p : Page) (s : State) :
  Reachable p s -> stream_inv s.
Proof.
  apply reachable_ind; [apply stream_inv_initial |].
  intros e s' _ _. apply stream_inv_handle.
Qed.

Lemma uncaught_other (e : Event) (s : State) :
  e ≠ ClickPause -> (∀ r d t, e ≠ RecorderStopped r d t) ->
  uncaught (handle e s) = uncaught s.
Proof.
  intros H1 H2. destruct e; try congruence; cbn [handle]; try script_cases.
  all: exfalso; eapply H2; reflexivity.
Qed.

Lemma uncaught_finish (r : nat) (date time : jsstring) (s : State) :
  is_Some (stream s) ->
  uncaught (handle (RecorderStopped r date time) s) = uncaught s.
Proof. intros [sid Hs]. cbn [handle]. script_cases. Qed.

(** X6.  In every reachable state the only handler from which an
    exception can escape is the one of the pause button, and only when it
    is clicked while no session is running but a recorder from an earlier
    session exists: it then calls [pause] on that inactive recorder, the
    call throws InvalidStateError, and nothing else changes.  In a running
    session no handler throws, and [finishRecording] always finds its
    stream. *)
Theorem only_pause_throws (p : Page) (s : State) (e : Event) :
  Reachable p s -> enabled e s = true ->
  uncaught (handle e s) = uncaught s
  ∨ (e = ClickPause ∧ lifecycle s = Idle
     ∧ ∃ r, mediaRecorder s = Some r
            ∧ handle e s
              = set_uncaught (uncaught s ++ [InvalidStateError])
                  (log (CRecorderPause r) s)).
Proof.
  intros Hreach He.
  pose proof (inv_reachable p s Hreach) as Hinv.
  pose proof (stream_inv_reachable p s Hreach) as [_ Hstream].
  destruct e;
    try (left; apply uncaught_other; repeat intro; discriminate).
  - (* pause button *)
    cbn [handle].
    destruct (session_cases s Hinv)
      as [(Hm & HR & HP) | [(r & Hm & Hst & HR & HP)
         | [(r & Hm & Hst & HR & HP) | (r & Hm & Hst & HR & HP)]]].
    + left. now rewrite (toggle_no_recorder s Hm).
    + right. split; [reflexivity |]. split; [now apply lifecycle_Idle |].
      exists r. split; [exact Hm |].
      rewrite (toggle_throw_eq s r Hm Hst), HP. reflexivity.
    + left. now destruct (toggle_recording s r Hm HP Hst) as (_ & _ & _ & H).
    + left. now destruct (toggle_paused s r Hm HP Hst) as (_ & _ & _ & H).
  - (* the stop event *)
    left. apply uncaught_finish. apply Hstream.
    cbn [enabled] in He. apply bool_decide_eq_true in He.
    intros Hnil. rewrite Hnil in He. inversion He.
Qed.

Lemma only_pause_throws_witness :
  ∃ s, run one_recording (initial page0) = Some s
    ∧ uncaught (handle ClickPause s) = [InvalidStateError]
    ∧ uncaught (handle ClickStop s) = [].
Proof.
  eexists. split; [vm_compute; reflexivity |].
  split; [reflexivity |].
  edestruct (only_pause_throws page0) as [H | (H & _)];
    [ exists one_recording; vm_compute; reflexivity | | exact H | discriminate H ].
  reflexivity.
Defined.

(** ** Time spent paused *)

Lemma run_cons_enabled (e : Event) (evs : list Event) (s : State) :
  enabled e s = true -> run (e :: evs) s = run evs (handle e s).
Proof. intros H. cbn [run]. now rewrite H. Qed.

Lemma pause_view (s : State) (r : nat) :
  mediaRecorder s = Some r -> isPaused s = false ->
  recorderState r s = recording ->
  mediaRecorder (togglePauseResume s) = Some r
  ∧ isRecording (togglePauseResume s) = isRecording s
  ∧ isPaused (togglePauseResume s) = true
  ∧ recorderState r (togglePauseResume s) = paused
  ∧ timeElapsed (togglePauseResume s) = timeElapsed s
  ∧ clock (togglePauseResume s) = clock s
  ∧ nextInterval (togglePauseResume s) = nextInterval s.
Proof.
  intros Hm HP Hst. rewrite (toggle_pause_eq s r Hm HP Hst).
  unfold recorderState, clearInterval, set_recorderState, log in *.
  destruct (timerInterval s); cbn; rewrite Hm;
    repeat split; apply lookup_set_recorder; congruence.
Qed.

Lemma resume_view (s : State) (r : nat) :
  mediaRecorder s = Some r -> isPaused s = true ->
  recorderState r s = paused ->
  isRecording (togglePauseResume s) = isRecording s
  ∧ isPaused (togglePauseResume s) = false
  ∧ timeElapsed (togglePauseResume s) = timeElapsed s
  ∧ clock (togglePauseResume s) = clock s
  ∧ startTime (togglePauseResume s) = clock s - timeElapsed s
  ∧ intervals (togglePauseResume s) = intervals s ++ [nextInterval s].
Proof.
  intros Hm HP Hst. rewrite (toggle_resume_eq s r Hm HP Hst).
  repeat split.
Qed.

Lemma elapse_view (dt : Z) (s : State) (r : nat) :
  mediaRecorder (handle (Elapse dt) s) = mediaRecorder s
  ∧ isRecording (handle (Elapse dt) s) = isRecording s
  ∧ isPaused (handle (Elapse dt) s) = isPaused s
  ∧ recorderState r (handle (Elapse dt) s) = recorderState r s
  ∧ timeElapsed (handle (Elapse dt) s) = timeElapsed s
  ∧ startTime (handle (Elapse dt) s) = startTime s
  ∧ intervals (handle (Elapse dt) s) = intervals s
  ∧ nextInterval (handle (Elapse dt) s) = nextInterval s
  ∧ clock (handle (Elapse dt) s) = clock s + dt.
Proof. repeat split. Qed.

Lemma tick_view (id : nat) (s : State) :
  isRecording (handle (TimerTick id) s) = isRecording s
  ∧ isPaused (handle (TimerTick id) s) = isPaused s
  ∧ timeElapsed (handle (TimerTick id) s) = clock s - startTime s.
Proof. repeat split. Qed.

(** X4.  Time spent paused is not counted.  From a reachable Recording
    state: pause, let any time pass, resume, let [dt] milliseconds pass;
    at the next firing of the timer the elapsed time is what it was at the
    pause plus [dt], however long the pause was, and the session is
    Recording. *)
Theorem paused_time_not_counted (p : Page) (s : State) (gap dt : Z) :
  Reachable p s -> lifecycle s = Recording -> 0 <= gap -> 0 <= dt ->
  ∃ s', run [ClickPause; Elapse gap; ClickPause; Elapse dt;
             TimerTick (nextInterval s)] s = Some s'
    ∧ lifecycle s' = Recording
    ∧ timeElapsed s' = timeElapsed s + dt.
Proof.
  intros Hreach Hlife Hgap Hdt.
  pose proof (inv_reachable p s Hreach) as Hinv.
  apply lifecycle_Recording in Hlife as [HR HP].
  assert (∃ r, mediaRecorder s = Some r ∧ recorderState r s = recording)
    as (r & Hm & Hst).
  { destruct (session_cases s Hinv)
      as [(Hm & HR' & HP') | [(r & Hm & Hst & HR' & HP')
         | [(r & Hm & Hst & HR' & HP') | (r & Hm & Hst & HR' & HP')]]];
      try congruence. eauto. }
  rewrite (run_cons_enabled ClickPause) by reflexivity.
  rewrite handle_ClickPause.
  destruct (pause_view s r Hm HP Hst)
    as (Pm & PR & PP & Pst & Pte & Pck & Pni).
  remember (togglePauseResume s) as s1 eqn:E1. clear E1.
  rewrite (run_cons_enabled (Elapse gap))
    by (cbn [enabled]; apply Z.leb_le; lia).
  destruct (elapse_view gap s1 r)
    as (Em & ER & EP & Est & Ete & _ & _ & Eni & Eck).
  remember (handle (Elapse gap) s1) as s2 eqn:E2. clear E2.
  rewrite (run_cons_enabled ClickPause) by reflexivity.
  rewrite handle_ClickPause.
  assert (Hm2 : mediaRecorder s2 = Some r) by congruence.
  assert (HP2 : isPaused s2 = true) by congruence.
  assert (Hst2 : recorderState r s2 = paused) by congruence.
  destruct (resume_view s2 r Hm2 HP2 Hst2)
    as (RR & RP & Rte & Rck & Rst & Rin).
  remember (togglePauseResume s2) as s3 eqn:E3. clear E3.
  rewrite (run_cons_enabled (Elapse dt))
    by (cbn [enabled]; apply Z.leb_le; lia).
  destruct (elapse_view dt s3 r)
    as (_ & FR & FP & _ & _ & Fst & Fin & _ & Fck).
  remember (handle (Elapse dt) s3) as s4 eqn:E4. clear E4.
  rewrite (run_cons_enabled (TimerTick (nextInterval s))).
  2: { cbn [enabled]. apply bool_decide_eq_true.
       rewrite Fin, Rin, Eni, Pni. membership. }
  destruct (tick_view (nextInterval s) s4) as (TR & TP & Tte).
  remember (handle (TimerTick (nextInterval s)) s4) as s5 eqn:E5. clear E5.
  exists s5. split; [reflexivity |]. split.
  - apply lifecycle_Recording. split; congruence.
  - lia.
Qed.

Lemma paused_time_not_counted_witness :
  ∃ s, run session_5s (initial page0) = Some s
    ∧ ∃ s', run [ClickPause; Elapse 60000; ClickPause; Elapse 2000;
                 TimerTick (nextInterval s)] s = Some s'
            ∧ timeElapsed s' = timeElapsed s + 2000.
Proof.
  eexists. split; [vm_compute; reflexivity |].
  match goal with
  | |- ∃ s', run _ ?s = _ ∧ _ =>
      destruct (paused_time_not_counted page0 s 60000 2000)
        as (s' & Hrun & _ & Ht)
  end;
    [ exists session_5s; vm_compute; reflexivity | reflexivity | lia | lia | ].
  exists s'. split; [exact Hrun | exact Ht].
Defined.

(** ** Rename *)

Lemma trimStart_head (s : jsstring) (u : N) (r : jsstring) :
  trimStart s = u :: r -> isWhiteSpace u = false.
Proof.
  induction s as [|v s IH]; cbn; [discriminate |].
  destruct (isWhiteSpace v) eqn:E; [exact IH |].
  intros H. injection H as <- _. exact E.
Qed.

Lemma trimStart_split (s : jsstring) :
  ∃ pre, s = pre ++ trimStart s ∧ forallb isWhiteSpace pre = true.
Proof.
  induction s as [|v s (pre & Hs & Hpre)]; cbn.
  - exists []. auto.
  - destruct (isWhiteSpace v) eqn:E.
    + exists (v :: pre). cbn. rewrite E, Hpre. split; [congruence | auto].
    + exists []. auto.
Qed.

Lemma trimStart_id (s : jsstring) :
  (∀ u, head s = Some u -> isWhiteSpace u = false) -> trimStart s = s.
Proof.
  destruct s as [|v s]; cbn; [reflexivity |].
  intros H. now rewrite (H v eq_refl).
Qed.

Lemma forallb_rev (f : N -> bool) (l : list N) :
  forallb f (rev l) = forallb f l.
Proof.
  induction l as [|x l IH]; cbn; [reflexivity |].
  rewrite forallb_app, IH. cbn. rewrite andb_true_r. apply andb_comm.
Qed.

Lemma trim_split (s : jsstring) :
  ∃ pre post, s = pre ++ trim s ++ post
    ∧ forallb isWhiteSpace pre = true ∧ forallb isWhiteSpace post = true.
Proof.
  unfold trim.
  destruct (trimStart_split s) as (pre & Hs & Hpre).
  destruct (trimStart_split (rev (trimStart s))) as (pre2 & Hr & Hpre2).
  exists pre, (rev pre2). split; [| split; [exact Hpre |]].
  - rewrite <- rev_app_distr, <- Hr, rev_involutive. exact Hs.
  - now rewrite forallb_rev.
Qed.

Lemma head_rev_last (l : list N) : head (rev l) = last l.
Proof.
  induction l as [|x l IH] using rev_ind; [reflexivity |].
  rewrite rev_app_distr, last_snoc. reflexivity.
Qed.

Lemma last_rev_head (l : list N) : last (rev l) = head l.
Proof. rewrite <- head_rev_last, rev_involutive. reflexivity. Qed.

Lemma last_suffix (pre l : list N) (u : N) :
  last l = Some u -> last (pre ++ l) = Some u.
Proof.
  intros H. destruct l as [|x l] using rev_ind; [discriminate |].
  rewrite app_assoc, last_snoc. now rewrite last_snoc in H.
Qed.

Lemma trim_last (s : jsstring) (u : N) :
  last (trim s) = Some u -> isWhiteSpace u = false.
Proof.
  unfold trim. rewrite last_rev_head. intros H.
  destruct (trimStart (rev (trimStart s))) as [|v r] eqn:E;
    [discriminate |].
  injection H as ->. eapply trimStart_head. exact E.
Qed.

Lemma trim_head (s : jsstring) (u : N) :
  head (trim s) = Some u -> isWhiteSpace u = false.
Proof.
  unfold trim. rewrite head_rev_last. intros H.
  destruct (trimStart_split (rev (trimStart s))) as (pre & Hr & _).
  apply (last_suffix pre) in H. rewrite <- Hr, last_rev_head in H.
  destruct (trimStart s) as [|v r] eqn:E; [discriminate |].
  injection H as ->. eapply trimStart_head. exact E.
Qed.

Lemma trim_idem (s : jsstring) : trim (trim s) = trim s.
Proof.
  assert (H1 : trimStart (trim s) = trim s)
    by (apply trimStart_id, trim_head).
  unfold trim at 1. rewrite H1.
  assert (H2 : trimStart (rev (trim s)) = rev (trim s)).
  { apply trimStart_id. intros u. rewrite head_rev_last. apply trim_last. }
  rewrite H2. apply rev_involutive.
Qed.

Lemma lookup_setName (url : nat) (name : jsstring) (l : list Item)
    (i : nat) :
  map (setName url name) l !! i = setName url name <$> l !! i.
Proof. apply list_lookup_fmap. Qed.

(** X1.  [renameRecording]: when the prompt is cancelled, or the answer is
    empty or only white space, the state is unchanged.  Otherwise only
    the list changes: every item keeps its place and its URL, the items of
    the renamed entry get the answer without its leading and trailing
    white space as name, and the others keep theirs.  That name is not
    empty, neither starts nor ends with white space, and trimming it again
    changes nothing. *)
Theorem rename_spec (url : nat) (answer : option jsstring) (s : State) :
  (answer = None ∨ (∃ n, answer = Some n ∧ trim n = []) ->
     renameRecording url answer s = s)
  ∧ ∀ n, answer = Some n -> trim n ≠ [] ->
      renameRecording url answer s
      = set_audioList (audioList (renameRecording url answer s)) s
      ∧ (∀ i, audioList (renameRecording url answer s) !! i
              = (fun it => if Nat.eqb (item_url it) url
                           then {| item_url := item_url it;
                                   item_name := trim n |}
                           else it) <$> audioList s !! i)
      ∧ (∃ pre post, n = pre ++ trim n ++ post
           ∧ forallb isWhiteSpace pre = true
           ∧ forallb isWhiteSpace post = true)
      ∧ (∀ u, head (trim n) = Some u ∨ last (trim n) = Some u ->
           isWhiteSpace u = false)
      ∧ trim (trim n) = trim n.
Proof.
  split.
  - intros [-> | (n & -> & Hn)]; [reflexivity |].
    unfold renameRecording.
    rewrite (bool_decide_eq_true_2 _ Hn).
    now rewrite andb_false_r.
  - intros n -> Hn.
    assert (Hne : n ≠ []) by (intros ->; apply Hn; reflexivity).
    unfold renameRecording.
    rewrite (bool_decide_eq_false_2 _ Hne), (bool_decide_eq_false_2 _ Hn).
    cbn [negb andb].
    split; [reflexivity |].
    split; [intros i; apply lookup_setName |].
    split; [apply trim_split |].
    split; [| apply trim_idem].
    intros u [H | H]; [eapply trim_head | eapply trim_last]; exact H.
Qed.

Lemma rename_spec_witness :
  ∃ s, run one_recording (initial page0) = Some s
    ∧ renameRecording 0 (Some (lit "   ")) s = s
    ∧ item_name <$> audioList (renameRecording 0 (Some (lit " Take 2 ")) s)
      = [lit "Take 2"].
Proof.
  eexists. split; [vm_compute; reflexivity |].
  match goal with
  | |- renameRecording 0 ?a ?s = _ ∧ _ =>
      destruct (rename_spec 0 a s) as [H _]
  end.
  split; [apply H; right; eexists; split; reflexivity |].
  reflexivity.
Defined.

(** ** The download file name *)

(** X2.  The file name given to a download holds nothing but ASCII
    letters, digits and underscores, followed by ".webm"; cleaning a
    cleaned name again changes nothing, and the name keeps its length. *)
Theorem download_name_safe (name : jsstring) :
  Forall (fun u => u ∈ alnum_chars ∨ u = underscore) (sanitize name)
  ∧ sanitize (sanitize name) = sanitize name
  ∧ length (sanitize name) = length name
  ∧ downloadName name = sanitize name ++ lit ".webm".
Proof.
  unfold sanitize. split; [| split; [| split; [apply length_map | reflexivity]]].
  - apply Forall_forall. intros u Hin.
    apply list_elem_of_fmap in Hin as (v & -> & _).
    destruct (isAlnum v) eqn:E; [left; now apply isAlnum_spec | now right].
  - rewrite map_map. apply map_ext. intros u.
    destruct (isAlnum u) eqn:E; [now rewrite E | reflexivity].
Qed.

(** ** Listed entries and their URLs *)

Lemma find_unique (l : list Item) (it : Item) :
  NoDup (map item_url l) -> it ∈ l ->
  List.find (fun x => Nat.eqb (item_url x) (item_url it)) l = Some it.
Proof.
  induction l as [|x l IH]; cbn; intros Hnd Hin; [inversion Hin |].
  apply NoDup_cons in Hnd as [Hnin Hnd].
  apply elem_of_cons in Hin as [-> | Hin].
  - now rewrite Nat.eqb_refl.
  - destruct (Nat.eqb_spec (item_url x) (item_url it)) as [Heq|_];
      [| now apply IH].
    exfalso. apply Hnin. rewrite Heq.
    apply list_elem_of_fmap. eauto.
Qed.

(** X7.  In every reachable state the entries of the list have pairwise
    distinct URLs, each of them made by [createObjectURL]; the buttons of
    an entry act on that entry; and the URL of a listed entry resolves to
    nothing exactly when the entry has been handed to a download. *)
Theorem listed_entries (p : Page) (s : State) :
  Reachable p s ->
  NoDup (map item_url (audioList s))
  ∧ ∀ it, it ∈ audioList s ->
      (item_url it < length (blobUrls s))%nat
      ∧ findItem (item_url it) s = Some it
      ∧ (resolveURL (item_url it) s = None
         <-> handed_over (item_url it) s).
Proof.
  intros Hreach. pose proof (registry_inv_reachable p s Hreach) as Hinv.
  pose proof Hinv as (Hnd & _ & Hit).
  split; [exact Hnd |]. intros it Hin.
  split; [now apply item_in_store |].
  split; [now apply find_unique |].
  destruct (Hit it Hin) as (b & Hb & Hiff).
  unfold resolveURL. rewrite Hb. exact Hiff.
Qed.

Lemma listed_entries_witness :
  ∃ s, run (one_recording ++ [ClickDownload 0]) (initial page0) = Some s
    ∧ NoDup (map item_url (audioList s)).
Proof.
  eexists. split; [vm_compute; reflexivity |].
  eapply (listed_entries page0).
  exists (one_recording ++ [ClickDownload 0]). vm_compute. reflexivity.
Defined.

(** ** The microphone stream *)

Lemma granted_streams (s : State) :
  stream (handle AccessGranted s) = Some (length (streams s))
  ∧ streams (handle AccessGranted s) = streams s ++ [true].
Proof. cbn [handle]. split; script_cases. Qed.

Lemma stream_var_frame (e : Event) (s : State) :
  e ≠ AccessGranted -> stream (handle e s) = stream s.
Proof. intros H. destruct e; try congruence; cbn [handle]; script_cases. Qed.

Lemma streams_frame (e : Event) (s : State) :
  e ≠ AccessGranted -> (∀ r d t, e ≠ RecorderStopped r d t) ->
  streams (handle e s) = streams s.
Proof.
  intros H1 H2.
  destruct e; try congruence; cbn [handle]; try script_cases.
  all: exfalso; eapply H2; reflexivity.
Qed.

Lemma finish_streams (r : nat) (date time : jsstring) (s : State) :
  streams (handle (RecorderStopped r date time) s)
  = match stream s with
    | Some sid => <[sid := false]> (streams s)
    | None => streams s
    end.
Proof. cbn [handle]. script_cases. Qed.

Lemma finish_calls (r : nat) (date time : jsstring) (s : State)
    (sid : nat) :
  stream s = Some sid ->
  calls (handle (RecorderStopped r date time) s)
  = calls s ++ [CCreateObjectURL (length (blobUrls s)); CTrackStop sid].
Proof.
  intros H. cbn [handle]. script_cases. now rewrite <- app_assoc.
Qed.

Lemma exec_streams (evs : list Event) (s : State) :
  forallb in_session evs = true ->
  stream (exec evs s) = stream s ∧ streams (exec evs s) = streams s.
Proof.
  revert s. induction evs as [|e evs IH]; intros s Hall; [auto |].
  cbn [forallb] in Hall. apply andb_true_iff in Hall as [He Hevs].
  rewrite exec_cons. destruct (IH (handle e s) Hevs) as [-> ->].
  split.
  - apply stream_var_frame. destruct e; discriminate.
  - apply streams_frame; repeat intro; destruct e; discriminate.
Qed.

(** X8.  A session releases its microphone.  From any state, in a session
    that starts, runs through deliveries, pause/resume clicks, ticks and
    passing time, is stopped and receives its last fragments, the stream
    obtained at the start stays live until the [stop] event arrives;
    [finishRecording] then stops its tracks, with one call, made right
    after the blob URL has been created. *)
Theorem session_releases_stream (s0 : State) (mid : list Event)
    (flush : list Blob) (date time : jsstring) :
  forallb in_session mid = true ->
  let r := length (recorders s0) in
  let sid := length (streams s0) in
  let before := exec (AccessGranted :: mid ++ ClickStop
                        :: map (DataAvailable r) flush) s0 in
  let after := handle (RecorderStopped r date time) before in
  stream before = Some sid
  ∧ streams before !! sid = Some true
  ∧ streams after !! sid = Some false
  ∧ calls after
    = calls before
        ++ [CCreateObjectURL (length (blobUrls s0)); CTrackStop sid].
Proof.
  intros Hmid r sid before after. subst after before sid r.
  set (r := length (recorders s0)). clearbody r.
  set (sid := length (streams s0)) in *.
  rewrite exec_cons, exec_app, exec_cons, handle_ClickStop.
  destruct (granted_streams s0) as (Hs1 & Hl1).
  destruct (granted_frame s0) as (_ & _ & _ & Hb1).
  remember (handle AccessGranted s0) as s1 eqn:E1. clear E1.
  destruct (exec_streams mid s1 Hmid) as (Hs2 & Hl2).
  destruct (exec_in_session mid s1 Hmid) as (_ & _ & Hb2 & _).
  remember (exec mid s1) as s2 eqn:E2. clear E2.
  pose proof (stream_var_frame ClickStop s2 ltac:(discriminate)) as Hs3.
  pose proof (streams_frame ClickStop s2 ltac:(discriminate)
                ltac:(repeat intro; discriminate)) as Hl3.
  rewrite handle_ClickStop in Hs3, Hl3.
  destruct (stop_frame s2) as (_ & _ & _ & Hb3).
  remember (stopRecording s2) as s3 eqn:E3. clear E3.
  destruct (exec_streams (map (DataAvailable r) flush) s3
              (in_session_data r flush)) as (Hs4 & Hl4).
  destruct (exec_in_session (map (DataAvailable r) flush) s3
              (in_session_data r flush)) as (_ & _ & Hb4 & _).
  remember (exec (map (DataAvailable r) flush) s3) as s4 eqn:E4. clear E4.
  assert (Hs : stream s4 = Some sid) by (subst sid; congruence).
  assert (Hl : streams s4 = streams s0 ++ [true]) by congruence.
  split; [exact Hs |].
  split; [rewrite Hl; subst sid; rewrite lookup_app_r by lia;
          now rewrite Nat.sub_diag |].
  split.
  - rewrite finish_streams, Hs, Hl. apply list_lookup_insert_eq.
    subst sid. rewrite length_app. cbn. lia.
  - rewrite (finish_calls r date time s4 sid Hs). do 3 f_equal. congruence.
Qed.

Lemma session_releases_stream_witness :
  let s0 := handle ClickRecord (initial page0) in
  streams (handle (RecorderStopped 0 date0 time0)
             (exec (AccessGranted :: scenario_mid ++ ClickStop
                      :: map (DataAvailable 0) []) s0)) !! 0%nat
  = Some false.
Proof.
  intros s0.
  pose proof (session_releases_stream s0 scenario_mid [] date0 time0
                eq_refl) as H.
  cbv zeta in H.
  change (length (recorders s0)) with 0%nat in H.
  change (length (streams s0)) with 0%nat in H.
  destruct H as (_ & _ & H & _). exact H.
Defined.

(** A stream that [stream] no longer holds is never touched again. *)
Lemma orphan_step (e : Event) (s : State) (sid : nat) :
  (sid < length (streams s))%nat -> stream s ≠ Some sid ->
  (sid < length (streams (handle e s)))%nat
  ∧ stream (handle e s) ≠ Some sid
  ∧ streams (handle e s) !! sid = streams s !! sid.
Proof.
  intros Hlt Hne.
  destruct e;
    try (rewrite stream_var_frame by discriminate;
         rewrite streams_frame by (repeat intro; discriminate);
         auto).
  - destruct (granted_streams s) as [-> ->].
    rewrite length_app, lookup_app_l by lia. cbn.
    repeat split; [lia | intros H; injection H; lia].
  - rewrite stream_var_frame by discriminate.
    rewrite finish_streams.
    destruct (stream s) as [sid'|]; [| auto].
    rewrite length_insert. rewrite list_lookup_insert_ne by congruence.
    auto.
Qed.

(** X9.  The script stops the tracks of one stream only, the one [stream]
    holds when a [stop] event arrives.  A stream that has been replaced in
    [stream] by a later one, as happens when the record button is clicked
    twice before access is granted, keeps the state it has, whatever
    happens afterwards: if it is live, the microphone is never released. *)
Theorem replaced_stream_never_stopped (evs : list Event) (s : State)
    (sid : nat) :
  (sid < length (streams s))%nat -> stream s ≠ Some sid ->
  streams (exec evs s) !! sid = streams s !! sid
  ∧ stream (exec evs s) ≠ Some sid.
Proof.
  revert s. induction evs as [|e evs IH]; intros s Hlt Hne; [auto |].
  rewrite exec_cons.
  destruct (orphan_step e s sid Hlt Hne) as (Hlt' & Hne' & Heq).
  destruct (IH (handle e s) Hlt' Hne') as [H1 H2].
  split; [congruence | exact H2].
Qed.

Lemma replaced_stream_never_stopped_witness :
  ∃ s, run [ClickRecord; ClickRecord; AccessGranted; AccessGranted]
         (initial page0) = Some s
    ∧ streams s !! 0%nat = Some true
    ∧ streams (exec [ClickStop; RecorderStopped 1 date0 time0] s) !! 0%nat
      = streams s !! 0%nat.
Proof.
  eexists. split; [vm_compute; reflexivity |].
  split; [reflexivity |].
  eapply replaced_stream_never_stopped; [cbn; lia | discriminate].
Defined.

(** ** The chunks *)

Lemma chunks_step (e : Event) (s : State) :
  e ≠ AccessGranted ->
  audioChunks (handle e s) = audioChunks s ++ delivered [e].
Proof.
  intros H. destruct e; try congruence;
    cbn [handle delivered flat_map app]; rewrite ?app_nil_r; script_cases.
Qed.

(** X12.  No handler but the start of a recording ever drops, reorders or
    duplicates a fragment: over any sequence of events in which access is
    not granted anew, the chunks are the chunks there were followed by the
    fragments delivered, in delivery order.  In particular pause, resume,
    stop, the [stop] event and the list operations leave them alone. *)
Theorem chunks_only_grow (evs : list Event) (s : State) :
  AccessGranted ∉ evs ->
  audioChunks (exec evs s) = audioChunks s ++ delivered evs.
Proof.
  revert s. induction evs as [|e evs IH]; intros s Hn.
  - cbn. now rewrite app_nil_r.
  - apply not_elem_of_cons in Hn as [Hne Hn].
    rewrite exec_cons, (IH _ Hn), chunks_step by congruence.
    rewrite <- app_assoc. f_equal.
    unfold delivered. cbn [flat_map]. now rewrite app_nil_r.
Qed.

Lemma chunks_only_grow_witness :
  ∃ s, run [ClickRecord; AccessGranted] (initial page0) = Some s
    ∧ audioChunks
        (exec [DataAvailable 0 (frag 1); ClickPause; ClickPause;
               DataAvailable 0 (frag 2); ClickStop; DataAvailable 0 (frag 3);
               RecorderStopped 0 date0 time0; ClickDownload 0] s)
      = audioChunks s ++ [frag 1; frag 2; frag 3].
Proof.
  eexists. split; [vm_compute; reflexivity |].
  apply (chunks_only_grow
           [DataAvailable 0 (frag 1); ClickPause; ClickPause;
            DataAvailable 0 (frag 2); ClickStop; DataAvailable 0 (frag 3);
            RecorderStopped 0 date0 time0; ClickDownload 0]).
  intros H.
  repeat (apply elem_of_cons in H as [H | H]; [discriminate H |]).
  inversion H.
Defined.

(** ** The name of a finished entry *)

Lemma data_timeElapsed (r : nat) (ds : list Blob) (s : State) :
  timeElapsed (exec (map (DataAvailable r) ds) s) = timeElapsed s.
Proof.
  revert s. induction ds as [|d ds IH]; intros s; [reflexivity |].
  cbn [map]. rewrite exec_cons, IH. reflexivity.
Qed.

(** X11.  When the [stop] event follows the click on stop with nothing in
    between but the last fragments, the entry it adds is named with a
    duration of zero, "(00:00)", whatever the timer showed:
    [stopRecording] has reset the elapsed time before [finishRecording]
    reads it. *)
Theorem entry_after_stop_shows_zero (s : State) (flush : list Blob)
    (r : nat) (date time : jsstring) :
  is_Some (stream s) ->
  audioList (exec (ClickStop :: map (DataAvailable r) flush
                     ++ [RecorderStopped r date time]) s)
  = {| item_url := length (blobUrls s);
       item_name := lit "Recording " ++ date ++ lit " " ++ time
                      ++ lit " (00:00)" |} :: audioList s.
Proof.
  intros Hstream.
  rewrite exec_cons, exec_app, exec_cons, exec_nil, handle_ClickStop.
  destruct (stop_frame s) as (Hs3 & _ & Hl3 & Hb3).
  assert (Ht3 : timeElapsed (stopRecording s) = 0).
  { rewrite stopRecording_eq.
    match goal with
    | |- timeElapsed (stop_cleanup ?x) = _ =>
        now destruct (cleanup_frame x)
          as (_ & _ & _ & _ & _ & _ & _ & _ & _ & _ & _ & _ & _ & H & _)
    end. }
  remember (stopRecording s) as s3 eqn:E3. clear E3.
  destruct (exec_in_session (map (DataAvailable r) flush) s3
              (in_session_data r flush)) as (Hs4 & Hl4 & Hb4 & _).
  pose proof (data_timeElapsed r flush s3) as Ht4.
  remember (exec (map (DataAvailable r) flush) s3) as s4 eqn:E4. clear E4.
  assert (Hsome : is_Some (stream s4)) by (rewrite Hs4, Hs3; exact Hstream).
  destruct (finish_adds_entry date time r s4 Hsome) as (Hl5 & _).
  rewrite Hl5, Ht4, Ht3, Hl4, Hl3, Hb4, Hb3. reflexivity.
Qed.

Lemma entry_after_stop_shows_zero_witness :
  ∃ s, run session_5s (initial page0) = Some s
    ∧ timeElapsed s = 5000
    ∧ item_name <$> audioList
                      (exec (ClickStop :: map (DataAvailable 0) [frag 7]
                               ++ [RecorderStopped 0 date0 time0]) s)
      = [lit "Recording 1/2/2026 10:00:00 AM (00:00)"].
Proof.
  eexists. split; [vm_compute; reflexivity |]. split; [reflexivity |].
  rewrite entry_after_stop_shows_zero; [reflexivity | cbn; eauto].
Defined.
